(** * cortex.t miner: admission, streaming dispatch and embedding batching

    A shallow embedding of [src/miner/miner.py] (class [StreamMiner]):
    - [base_blacklist] and its four wrappers (the admission gate),
    - [generate_messages_to_claude] and [_prompt], the inner functions of
      [prompt] (the streaming dispatcher),
    - [get_embeddings_in_batch], the inner function of [embeddings].

    Conventions.  Python [str] is [string]; a character is read as a code
    point below 256.  Python [float] values (timestamps, stake, sampling
    parameters, embedding coordinates) are rationals [Q]; they are only
    compared, subtracted or passed through.  Python [int] is [Z].  A [dict]
    read by key is a [gmap].  An exception is a value of [exn]; a
    computation that may raise returns [exn + A].  Awaiting [send] is taken
    to succeed. *)

From stdpp Require Import base strings list gmap pretty.
From Stdlib Require Import ZArith QArith Lqa Sorted.

Local Open Scope Z_scope.
#[local] Set Warnings "-register-all".

(** ** Exceptions and the error monad *)

Inductive exn : Type :=
| AttributeError (attr : string)
| KeyError (key : string)
| IndexError
| ValueError
| TypeError
| UnboundLocalError (name : string)
| JSONDecodeError
| UpstreamError (detail : string).

Definition result (A : Type) : Type := exn + A.

(** [ok a] is a normal return of [a], [throw e] raises [e]. *)
Abbreviation ok := inr (only parsing).
Abbreviation throw := inl (only parsing).

Definition rbind {A B} (r : result A) (k : A → result B) : result B :=
  match r with
  | inl e => inl e
  | inr a => k a
  end.

Declare Scope result_scope.
Delimit Scope result_scope with result.
Notation "x ←? r ; k" := (rbind r (λ x, k))
  (at level 20, r at level 100, k at level 200, right associativity,
   format "x  ←?  r ;  '/' k") : result_scope.
Notation "' p ←? r ; k" := (rbind r (λ x, match x with p => k end))
  (at level 20, p pattern, r at level 100, k at level 200,
   right associativity) : result_scope.

(** ** Python helpers *)

(** Truth value of a [str] and of an optional [str] (the result of
    [dict.get]): [None] and the empty string are false. *)
Definition str_truthy (s : string) : bool :=
  match s with
  | EmptyString => false
  | String _ _ => true
  end.

Definition opt_truthy (o : option string) : bool :=
  match o with
  | None => false
  | Some s => str_truthy s
  end.

(** [x or ""] for an optional string. *)
Definition or_empty (o : option string) : string :=
  if opt_truthy o then default "" o else "".

(** [d[key]]: raises [KeyError] when the key is absent. *)
Definition getitem (d : gmap string string) (key : string) : result string :=
  match d !! key with
  | Some v => ok v
  | None => throw (KeyError key)
  end.

(** [s.startswith(p)] *)
Definition startswith (p s : string) : bool := String.prefix p s.

(** [a > b] on floats. *)
Definition Qgtb (a b : Q) : bool := negb (Qle_bool a b).
(** [a < b] on floats. *)
Definition Qltb (a b : Q) : bool := negb (Qle_bool b a).

(** ** The log

    One entry per [bt.logging] call: its level and its message.  A message
    that formats an exception or [traceback.format_exc()] carries the
    exception itself. *)
Inductive log_entry : Type :=
| LogInfo (msg : string)
| LogDebug (msg : string)
| LogError (msg : string)
| LogException (msg : string) (e : exn).

(** * How a [float] prints

    A float is modelled by the rational it stands for.  In an f-string it
    prints as [repr] prints the double nearest to that rational: the
    shortest decimal that reads back as the same double, laid out in
    fixed notation with at least one fractional digit, or in exponent
    notation when the value is very small or very large. *)

Module PyFloat.

(** The integer nearest to [n / d], ties going to the even one. *)
Definition round_half_even (n d : Z) : Z :=
  let q := n / d in
  let r := n mod d in
  if 2 * r <? d then q
  else if d <? 2 * r then q + 1
  else if Z.even q then q else q + 1.

(** [n / d] divided by [base ^ e], as a fraction. *)
Definition scale (base n d e : Z) : Z * Z :=
  if 0 <=? e then (n, d * base ^ e) else (n * base ^ (- e), d).

(** [c * base ^ e] as a fraction. *)
Definition power (base c e : Z) : Z * Z :=
  if 0 <=? e then (c * base ^ e, 1) else (c, base ^ (- e)).

Definition same (v w : Z * Z) : bool := (v.1 * w.2 =? w.1 * v.2).

(** The integer part of the binary logarithm of [n / d]. *)
Definition floor_log2 (n d : Z) : Z :=
  let l := Z.log2 n - Z.log2 d in
  let '(n', d') := scale 2 n d l in
  if d' <=? n' then l else l - 1.

(** The double nearest to [n / d], for positive [n] and [d]: a 53-bit
    significand at a binary exponent no smaller than that of the
    subnormals, rounded half to even; [None] when it overflows. *)
Definition nearest_double (n d : Z) : option (Z * Z) :=
  let e := Z.max (floor_log2 n d - 52) (-1074) in
  let '(n', d') := scale 2 n d e in
  let m := round_half_even n' d' in
  if (971 <? e) || ((e =? 971) && (m =? 2 ^ 53)) then None
  else Some (power 2 m e).

(** The decimal [c * 10 ^ e] reads back as the double [v]. *)
Definition reads_as (v : Z * Z) (c e : Z) : bool :=
  let '(n, d) := power 10 c e in
  match nearest_double n d with
  | Some w => same v w
  | None => false
  end.

(** The position of the decimal point: [k] with
    [10 ^ (k - 1) <= n / d < 10 ^ k]. *)
Fixpoint decpt_from (fuel : nat) (n d k : Z) : Z :=
  match fuel with
  | O => k
  | S fuel =>
      let '(n', d') := scale 10 n d k in
      if n' <? d' then k else decpt_from fuel n d (k + 1)
  end.

Definition decpt (n d : Z) : Z :=
  decpt_from 6 n d ((Z.log2 n - Z.log2 d - 1) * 30103 / 100000 - 1).

(** The decimal of [p] significant digits that reads back as [v], the
    nearer one to [v] if two do. *)
Definition candidate (v : Z * Z) (k p : Z) : option Z :=
  let '(n', d') := scale 10 v.1 v.2 (k - p) in
  let lo := n' / d' in
  let hi := lo + 1 in
  match reads_as v lo (k - p), reads_as v hi (k - p) with
  | true, true => Some (round_half_even n' d')
  | true, false => Some lo
  | false, true => Some hi
  | false, false => None
  end.

(** The shortest such decimal; seventeen digits always read back. *)
Fixpoint shortest (fuel : nat) (v : Z * Z) (k p : Z) : Z * Z :=
  match fuel with
  | O => let '(n', d') := scale 10 v.1 v.2 (k - p) in
         (round_half_even n' d', k - p)
  | S fuel =>
      match candidate v k p with
      | Some c => (c, k - p)
      | None => shortest fuel v k (p + 1)
      end
  end.

Definition digit_zero : Ascii.ascii := Ascii.ascii_of_nat 48.

Fixpoint zeros (n : nat) : string :=
  match n with O => "" | S n => String digit_zero (zeros n) end.

(** The digits without their trailing zeros. *)
Fixpoint rstrip_zeros (digits : string) : string :=
  match digits with
  | EmptyString => EmptyString
  | String a rest =>
      match rstrip_zeros rest with
      | EmptyString => if Ascii.eqb a digit_zero then EmptyString else String a EmptyString
      | rest' => String a rest'
      end
  end.

(** [repr] lays the digits out in fixed notation when the decimal point
    is at a position in [-3 .. 16], in exponent notation otherwise. *)
Definition layout (digits : string) (point : Z) : string :=
  let len := Z.of_nat (String.length digits) in
  if (-4 <? point) && (point <=? 16)
  then
    if point <=? 0 then "0." +:+ zeros (Z.to_nat (- point)) +:+ digits
    else if len <=? point
      then digits +:+ zeros (Z.to_nat (point - len)) +:+ ".0"
    else String.substring 0 (Z.to_nat point) digits +:+ "."
         +:+ String.substring (Z.to_nat point) (Z.to_nat (len - point)) digits
  else
    let e := point - 1 in
    String.substring 0 1 digits
    +:+ (if 1 <? len
         then "." +:+ String.substring 1 (Z.to_nat (len - 1)) digits else "")
    +:+ "e" +:+ (if e <? 0 then "-" else "+")
    +:+ (if Z.abs e <? 10 then "0" else "") +:+ pretty (Z.abs e).

Definition repr_positive (n d : Z) : string :=
  match nearest_double n d with
  | None => "inf"
  | Some v =>
      if v.1 =? 0 then "0.0"
      else
        let '(c, e) := shortest 16 v (decpt v.1 v.2) 1 in
        let digits := pretty c in
        layout (rstrip_zeros digits)
          (e + Z.of_nat (String.length digits))
  end.

(** [repr(x)], which is also [str(x)] and what an f-string prints. *)
Definition repr (q : Q) : string :=
  let n := Qnum q in
  if n =? 0 then "0.0"
  else (if n <? 0 then "-" else "") +:+ repr_positive (Z.abs n) (Zpos (Qden q)).

End PyFloat.

(** * Admission: [base_blacklist] *)

Module Admission.

(** The constants of the [cortext] package read by the gate.  The package
    is not part of the miner's sources, so they are parameters. *)
Record cortext_constants : Type := {
  ALLOW_NON_REGISTERED : bool;
  MIN_REQUEST_PERIOD : Z;
  MAX_REQUESTS : Z;
  PROMPT_BLACKLIST_STAKE : Z;
  ISALIVE_BLACKLIST_STAKE : Z;
  IMAGE_BLACKLIST_STAKE : Z;
  EMBEDDING_BLACKLIST_STAKE : Z;
}.

(** [self.metagraph]: the axons' hotkeys (in uid order), the [hotkeys] list
    and the stake vector [S]. *)
Record metagraph : Type := {
  axons : list string;
  hotkeys : list string;
  S : list Q;
}.

(** The part of a synapse the gate reads: [synapse.dendrite] (absent, or a
    terminal with its hotkey) and [type(synapse).__name__]. *)
Record synapse : Type := {
  dendrite : option string;
  type_name : string;
}.

(** The miner's mutable state touched by the gate. *)
Record miner : Type := {
  request_timestamps : gmap string (list Q);
  log : list log_entry;
}.

(** A blacklist decision: [(blacklisted, reason)]. *)
Definition decision : Type := bool * string.

(** How numbers appear inside the f-string reasons: an [int] in decimal,
    a stake as a float prints. *)
Definition show_int (z : Z) : string := pretty z.
Definition show_float (q : Q) : string := PyFloat.repr q.

(** [for _uid, _axon in enumerate(self.metagraph.axons): ... break] *)
Definition find_uid (mg : metagraph) (hotkey : string) : option nat :=
  fst <$> list_find (λ h, h = hotkey) (axons mg).

(** [self.metagraph.hotkeys.index(hotkey)] *)
Definition hotkeys_index (mg : metagraph) (hotkey : string) : result nat :=
  match list_find (λ h, h = hotkey) (hotkeys mg) with
  | Some (i, _) => ok i
  | None => throw ValueError
  end.

(** [self.metagraph.S[i]] *)
Definition stake_at (mg : metagraph) (i : nat) : result Q :=
  match S mg !! i with
  | Some s => ok s
  | None => throw IndexError
  end.

(** [while dq and current_time - dq[0] > time_window: dq.popleft()] *)
Fixpoint prune (current_time time_window : Q) (dq : list Q) : list Q :=
  match dq with
  | [] => []
  | t :: rest =>
      if Qgtb (current_time - t) time_window
      then prune current_time time_window rest
      else dq
  end.

Definition reason_non_registered (synapse_type hotkey : string) : string :=
  "Blacklisted a non registered hotkey's " +:+ synapse_type
  +:+ " request from " +:+ hotkey.

Definition reason_low_stake (synapse_type : string) (stake : Q)
    (blacklist_amt : Z) (hotkey : string) : string :=
  "Blacklisted a low stake " +:+ synapse_type +:+ " request: "
  +:+ show_float stake +:+ " < " +:+ show_int blacklist_amt
  +:+ " from " +:+ hotkey.

Definition reason_frequency (hotkey : string) (count : nat)
    (period limit : Z) : string :=
  "Request frequency for " +:+ hotkey +:+ " exceeded: "
  +:+ pretty count +:+ " requests in " +:+ show_int period
  +:+ " minutes. Limit is " +:+ show_int limit +:+ " requests.".

Definition reason_accepting (synapse_type hotkey : string) : string :=
  "accepting " +:+ synapse_type +:+ " request from " +:+ hotkey.

(** The window of a hotkey after [if hotkey not in self.request_timestamps:
    self.request_timestamps[hotkey] = deque()]. *)
Definition window_of (ts : gmap string (list Q)) (hotkey : string) : list Q :=
  default [] (ts !! hotkey).

Section Gate.
Context (c : cortext_constants) (mg : metagraph).

(** The statements of the [try] body up to the stake check.  They are the
    only ones that can raise, and they run before any mutation.  The
    result is [inl d] for an early [return d] and [inr hotkey] to go on. *)
Definition identity_and_stake (syn : synapse) (blacklist_amt : Z)
    : result (decision + string) :=
  (hotkey ←? match dendrite syn with
             | Some h => ok h
             | None => throw (AttributeError "hotkey")
             end;
   let synapse_type := type_name syn in
   let uid := find_uid mg hotkey in
   if bool_decide (uid = None) && negb (ALLOW_NON_REGISTERED c)
   then ok (inl (true, reason_non_registered synapse_type hotkey))
   else
     i ←? hotkeys_index mg hotkey;
     stake ←? stake_at mg i;
     if Qltb stake (inject_Z blacklist_amt)
     then ok (inl (true, reason_low_stake synapse_type stake
                           blacklist_amt hotkey))
     else ok (inr hotkey))%result.

(** The rate check, from [time_window = ...] to the final [return]. *)
Definition rate_check (m : miner) (syn : synapse) (hotkey : string)
    (current_time : Q) : decision * miner :=
  let time_window := inject_Z (MIN_REQUEST_PERIOD c * 60) in
  let pruned := prune current_time time_window
                  (window_of (request_timestamps m) hotkey) in
  if bool_decide (Z.of_nat (length pruned) >= MAX_REQUESTS c)
  then ((true, reason_frequency hotkey (length pruned)
                 (MIN_REQUEST_PERIOD c) (MAX_REQUESTS c)),
        {| request_timestamps := <[hotkey := pruned]> (request_timestamps m);
           log := log m |})
  else ((false, reason_accepting (type_name syn) hotkey),
        {| request_timestamps :=
             <[hotkey := pruned ++ [current_time]]> (request_timestamps m);
           log := log m |}).

(** [base_blacklist(self, synapse, blacklist_amt)]; [current_time] is the
    value [time.time()] returns.  The result [None] is Python's [None]:
    the [except] branch logs and falls off the end of the function. *)
Definition base_blacklist (m : miner) (syn : synapse) (blacklist_amt : Z)
    (current_time : Q) : option decision * miner :=
  match identity_and_stake syn blacklist_amt with
  | inl e =>
      (None, {| request_timestamps := request_timestamps m;
                log := log m ++ [LogException "errror in blacklist " e] |})
  | inr (inl d) => (Some d, m)
  | inr (inr hotkey) =>
      let '(d, m') := rate_check m syn hotkey current_time in (Some d, m')
  end.

(** [blacklist[1]] and [return blacklist] in a wrapper: subscripting
    [None] raises [TypeError]. *)
Definition wrapper (level : string → log_entry)
    (r : option decision * miner) : result decision * miner :=
  match r with
  | (Some d, m) =>
      (ok d, {| request_timestamps := request_timestamps m;
                log := log m ++ [level (snd d)] |})
  | (None, m) => (throw TypeError, m)
  end.

Definition blacklist_prompt m syn current_time :=
  wrapper LogInfo (base_blacklist m syn (PROMPT_BLACKLIST_STAKE c) current_time).
Definition blacklist_is_alive m syn current_time :=
  wrapper LogDebug (base_blacklist m syn (ISALIVE_BLACKLIST_STAKE c) current_time).
Definition blacklist_images m syn current_time :=
  wrapper LogInfo (base_blacklist m syn (IMAGE_BLACKLIST_STAKE c) current_time).
Definition blacklist_embeddings m syn current_time :=
  wrapper LogInfo (base_blacklist m syn (EMBEDDING_BLACKLIST_STAKE c) current_time).
End Gate.

(** ** A small network, used in the examples *)

Definition example_constants : cortext_constants :=
  {| ALLOW_NON_REGISTERED := true;
     MIN_REQUEST_PERIOD := 1;
     MAX_REQUESTS := 2;
     PROMPT_BLACKLIST_STAKE := 100;
     ISALIVE_BLACKLIST_STAKE := 10;
     IMAGE_BLACKLIST_STAKE := 100;
     EMBEDDING_BLACKLIST_STAKE := 100 |}.

Definition example_metagraph : metagraph :=
  {| axons := ["hk1"; "hk2"];
     hotkeys := ["hk1"; "hk2"];
     S := [inject_Z 200; inject_Z 50] |}.

Definition request_from (hotkey : string) : synapse :=
  {| dendrite := Some hotkey; type_name := "StreamPrompting" |}.

(** A miner that admitted [hk1] at times 1000 and 1001. *)
Definition busy_miner : miner :=
  {| request_timestamps := {[ "hk1" := [inject_Z 1000; inject_Z 1001] ]};
     log := [] |}.

End Admission.

(** * Streaming dispatch: [prompt] *)

Module Dispatch.

(** ** Data *)

(** A JSON value, as [json.loads] returns it and [json.dumps] takes it. *)
Inductive json : Type :=
| JNull
| JBool (b : bool)
| JInt (z : Z)
| JFloat (q : Q)
| JStr (s : string)
| JList (l : list json)
| JDict (fields : list (string * json)).

(** A content block of a translated message. *)
Inductive content_block : Type :=
| TextBlock (text : string)
| ImageUrlBlock (url : string)
| ImageBase64Block (media_type data : string).

(** A translated message: [{"role": ..., "content": [...]}]. *)
Record out_message : Type := {
  om_role : string;
  om_content : list content_block;
}.

(** The fields of [StreamPrompting] read by [_prompt]; a chat message is a
    [dict] from strings to strings. *)
Record synapse : Type := {
  provider : string;
  model : string;
  messages : list (gmap string string);
  seed : Z;
  temperature : Q;
  max_tokens : Z;
  top_p : Q;
  top_k : Z;
}.

(** One [send({"type": "http.response.body", "body": ..., "more_body": ...})]. *)
Record send_event : Type := {
  body : string;
  more_body : bool;
}.

(** A provider's chunk sequence: the chunks it yields and, when iteration
    ends by an exception instead of exhaustion, that exception. *)
Record stream (C : Type) : Type := {
  items : list C;
  failure : option exn;
}.
Arguments items {C} _.
Arguments failure {C} _.

(** A chat-completion chunk of OpenAI or Groq: [delta.content] of each
    element of [chunk.choices]. *)
Definition chat_chunk : Type := list (option string).

(** A Gemini chunk: the parts of each candidate's content, and [chunk.text]. *)
Record gemini_chunk : Type := {
  candidates : list (list string);
  text : string;
}.

(** The calls made on the provider clients, with their keyword arguments. *)
Inductive upstream_call : Type :=
| OpenAIChatCompletions (model : string) (messages : list out_message)
    (temperature : Q) (seed max_tokens : Z)
| AnthropicBedrockCompletions (prompt : string) (max_tokens_to_sample : Z)
    (temperature : Q) (top_k : Z) (top_p : Q) (model : string)
| AnthropicMessagesStream (max_tokens : Z) (messages : list out_message)
    (model : string) (system : option string)
| GeminiGenerateContent (model prompt : string) (temperature top_p : Q)
    (top_k : Z)
| GroqChatCompletions (messages : list (gmap string string)) (model : string)
    (temperature : Q) (max_tokens : Z) (top_p : Q) (seed : Z)
| BedrockInvokeModel (modelId body : string)
| BedrockInvokeModelWithResponseStream (modelId body : string).

(** The module-level clients and the library functions [_prompt] calls.
    None of them is defined in the miner's sources, so they are parameters:
    each client answers a call with a chunk sequence or raises. *)
Record upstream : Type := {
  openai_client : upstream_call → result (stream chat_chunk);
  anthropic_bedrock_client : upstream_call → result (stream string);
  anthropic_client : upstream_call → result (stream string);
  genai_model : upstream_call → result (stream gemini_chunk);
  groq_client : upstream_call → result (stream chat_chunk);
  bedrock_invoke_model : upstream_call → result string;
  bedrock_invoke_stream : upstream_call → result (stream string);
  httpx_get : string → result string;
  b64encode : string → string;
  py_str : list (gmap string string) → string;
  json_dumps : json → string;
  json_loads : string → result json;
}.

(** What a dispatch acts on: the sends observed by the sink, the log, and
    the upstream calls issued. *)
Record world : Type := {
  sink : list send_event;
  log : list log_entry;
  calls : list upstream_call;
}.

Definition empty_world : world := {| sink := []; log := []; calls := [] |}.

(** ** The dispatcher's monad: state over [world], with exceptions *)

Definition M (A : Type) : Type := world → result A * world.

Definition mret {A} (a : A) : M A := λ w, (ok a, w).
Definition raise {A} (e : exn) : M A := λ w, (throw e, w).
Definition mbind {A B} (m : M A) (k : A → M B) : M B :=
  λ w, match m w with
       | (inl e, w') => (inl e, w')
       | (inr a, w') => k a w'
       end.
Definition lift {A} (r : result A) : M A := λ w, (r, w).

Declare Scope dispatch_scope.
Delimit Scope dispatch_scope with M.
Notation "x ← m ; k" := (mbind m (λ x, k))
  (at level 20, m at level 100, k at level 200, right associativity,
   format "x  ←  m ;  '/' k") : dispatch_scope.
Notation "m ;; k" := (mbind m (λ _, k))
  (at level 100, k at level 200, right associativity) : dispatch_scope.

(** [await send({... "body": b.encode("utf-8"), "more_body": more})] *)
Definition send (b : string) (more : bool) : M unit :=
  λ w, (ok tt, {| sink := sink w ++ [{| body := b; more_body := more |}];
                  log := log w; calls := calls w |}).

Definition logging (entry : log_entry) : M unit :=
  λ w, (ok tt, {| sink := sink w; log := log w ++ [entry];
                  calls := calls w |}).

(** Issue a call on a client: the call is recorded, then the client answers. *)
Definition call {R} (client : upstream_call → result R) (c : upstream_call)
    : M R :=
  λ w, (client c, {| sink := sink w; log := log w; calls := calls w ++ [c] |}).

(** [for x in xs: ...] threading the loop's local variables [st]. *)
Fixpoint for_each {C St} (body : St → C → M St) (xs : list C) (st : St)
    : M St :=
  match xs with
  | [] => mret st
  | x :: xs' => (st' ← body st x; for_each body xs' st')%M
  end.

(** [async for chunk in s: ...]: the loop over the chunks, then the
    exception the sequence ends with, if any. *)
Definition for_stream {C St} (s : stream C) (body : St → C → M St) (st : St)
    : M St :=
  (st' ← for_each body (items s) st;
   match failure s with
   | None => mret st'
   | Some e => raise e
   end)%M.

(** ** JSON access, as [extract_token] uses it *)

(** The value a parsed object holds at a key (the last one wins). *)
Fixpoint assoc (key : string) (fields : list (string * json)) : option json :=
  match fields with
  | [] => None
  | (k, v) :: rest =>
      match assoc key rest with
      | Some v' => Some v'
      | None => if String.eqb k key then Some v else None
      end
  end.

Definition json_truthy (j : json) : bool :=
  match j with
  | JNull => false
  | JBool b => b
  | JInt z => negb (z =? 0)
  | JFloat q => negb (Qeq_bool q 0)
  | JStr s => str_truthy s
  | JList l => match l with [] => false | _ => true end
  | JDict fields => match fields with [] => false | _ => true end
  end.

(** [j.get(key)] *)
Definition json_get (j : json) (key : string) : result json :=
  match j with
  | JDict fields => ok (default JNull (assoc key fields))
  | _ => throw (AttributeError "get")
  end.

(** [j[key]] for a string key *)
Definition json_item (j : json) (key : string) : result json :=
  match j with
  | JDict fields =>
      match assoc key fields with
      | Some v => ok v
      | None => throw (KeyError key)
      end
  | _ => throw TypeError
  end.

(** [j[0]] *)
Definition json_first (j : json) : result json :=
  match j with
  | JList [] => throw IndexError
  | JList (x :: _) => ok x
  | JStr EmptyString => throw IndexError
  | JStr (String a _) => ok (JStr (String a EmptyString))
  | JDict _ => throw (KeyError "0")
  | _ => throw TypeError
  end.

(** [j or ""] *)
Definition json_or_empty (j : json) : json :=
  if json_truthy j then j else JStr "".

(** [j == s] for a string literal [s] *)
Definition json_is_str (j : json) (s : string) : bool :=
  match j with
  | JStr s' => String.eqb s' s
  | _ => false
  end.

(** ["".join(buffer)]: every element has to be a [str]. *)
Definition join (buffer : list string) : result string :=
  ok (String.concat "" buffer).

Fixpoint json_strs (buffer : list json) : result (list string) :=
  match buffer with
  | [] => ok []
  | JStr s :: rest => (r ←? json_strs rest; ok (s :: r))%result
  | _ :: _ => throw TypeError
  end.

Definition json_join (buffer : list json) : result string :=
  (strs ←? json_strs buffer; join strs)%result.

(** ** The translated requests as JSON (for the Bedrock gateway) *)

Definition json_of_block (b : content_block) : json :=
  match b with
  | TextBlock t => JDict [("type", JStr "text"); ("text", JStr t)]
  | ImageUrlBlock u =>
      JDict [("type", JStr "image_url");
             ("image_url", JDict [("url", JStr u)])]
  | ImageBase64Block mt d =>
      JDict [("type", JStr "image");
             ("source", JDict [("type", JStr "base64");
                               ("media_type", JStr mt);
                               ("data", JStr d)])]
  end.

Definition json_of_message (m : out_message) : json :=
  JDict [("role", JStr (om_role m));
         ("content", JList (json_of_block <$> om_content m))].

(** The sub-model family a Bedrock model identifier selects: the
    [if model.startswith(...) / elif ...] chain, in its order. *)
Inductive family : Type :=
| Cohere | Meta | Anthropic | Mistral | Amazon | AI21.

Definition family_of (model : string) : option family :=
  if startswith "cohere" model then Some Cohere
  else if startswith "meta" model then Some Meta
  else if startswith "anthropic" model then Some Anthropic
  else if startswith "mistral" model then Some Mistral
  else if startswith "amazon" model then Some Amazon
  else if startswith "ai21" model then Some AI21
  else None.

Definition nl : string := String (Ascii.ascii_of_nat 10) EmptyString.

(** [messages[0]] *)
Definition first_message (messages : list (gmap string string))
    : result (gmap string string) :=
  match messages with
  | [] => throw IndexError
  | m :: _ => ok m
  end.

Section Translate.
Context (up : upstream).

(** The loop of [generate_messages_to_claude], with its two locals. *)
Fixpoint claude_loop (messages : list (gmap string string))
    (system_prompt : option string) (filtered_messages : list out_message)
    : result (list out_message * option string) :=
  match messages with
  | [] => ok (filtered_messages, system_prompt)
  | message :: rest =>
      (role ←? getitem message "role";
       if String.eqb role "system"
       then
         content ←? getitem message "content";
         claude_loop rest (Some content) filtered_messages
       else
         image_blocks ←?
           (if opt_truthy (message !! "image")
            then
              let image_url := default "" (message !! "image") in
              raw ←? httpx_get up image_url;
              ok [ImageBase64Block "image/jpeg" (b64encode up raw)]
            else ok []);
         let text_blocks :=
           if opt_truthy (message !! "content")
           then [TextBlock (default "" (message !! "content"))]
           else [] in
         let message_to_append :=
           {| om_role := role;
              om_content := image_blocks ++ text_blocks |} in
         claude_loop rest system_prompt
           (filtered_messages ++ [message_to_append]))%result
  end.

Definition generate_messages_to_claude
    (messages : list (gmap string string))
    : result (list out_message * option string) :=
  claude_loop messages None [].

(** [if system_prompt: kwargs["system"] = system_prompt] *)
Definition system_kwarg (system_prompt : option string) : option string :=
  if opt_truthy system_prompt then system_prompt else None.

(** The [filtered_messages] the OpenAI branch builds. *)
Definition openai_messages (messages : list (gmap string string))
    : result (list out_message) :=
  (message ←? first_message messages;
   role ←? getitem message "role";
   let text_blocks :=
     if opt_truthy (message !! "content")
     then [TextBlock (default "" (message !! "content"))]
     else [] in
   let image_blocks :=
     if opt_truthy (message !! "image")
     then [ImageUrlBlock (default "" (message !! "image"))]
     else [] in
   ok [{| om_role := role; om_content := text_blocks ++ image_blocks |}]
  )%result.

(** [messages[0]["content"]] *)
Definition first_content (messages : list (gmap string string))
    : result string :=
  (message ←? first_message messages; getitem message "content")%result.

(** [generate_request] of the Bedrock branch. *)
Definition generate_request (syn : synapse) : result string :=
  (native_request ←?
     match family_of (model syn) with
     | Some Cohere =>
         content ←? first_content (messages syn);
         ok (JDict [("message", JStr content);
                    ("temperature", JFloat (temperature syn));
                    ("max_tokens", JInt (max_tokens syn));
                    ("p", JFloat (top_p syn));
                    ("seed", JInt (seed syn))])
     | Some Meta =>
         content ←? first_content (messages syn);
         ok (JDict [("prompt", JStr content);
                    ("temperature", JFloat (temperature syn));
                    ("max_gen_len",
                     JInt (if bool_decide (max_tokens syn > 2048)
                           then 2048 else max_tokens syn));
                    ("top_p", JFloat (top_p syn))])
     | Some Anthropic =>
         '(message, system_prompt) ←?
           generate_messages_to_claude (messages syn);
         ok (JDict ([("anthropic_version", JStr "bedrock-2023-05-31");
                     ("messages", JList (json_of_message <$> message));
                     ("temperature", JFloat (temperature syn));
                     ("max_tokens", JInt (max_tokens syn));
                     ("top_p", JFloat (top_p syn))]
                    ++ match system_kwarg system_prompt with
                       | Some sp => [("system", JStr sp)]
                       | None => []
                       end))
     | Some Mistral =>
         content ←? first_content (messages syn);
         ok (JDict [("prompt", JStr content);
                    ("temperature", JFloat (temperature syn));
                    ("max_tokens", JInt (max_tokens syn))])
     | Some Amazon =>
         content ←? first_content (messages syn);
         ok (JDict [("inputText", JStr content);
                    ("textGenerationConfig",
                     JDict [("maxTokenCount", JInt (max_tokens syn));
                            ("temperature", JFloat (temperature syn));
                            ("topP", JFloat (top_p syn))])])
     | Some AI21 =>
         content ←? first_content (messages syn);
         ok (JDict [("prompt", JStr content);
                    ("maxTokens", JInt (max_tokens syn));
                    ("temperature", JFloat (temperature syn));
                    ("topP", JFloat (top_p syn))])
     | None => throw (UnboundLocalError "native_request")
     end;
   ok (json_dumps up native_request))%result.

(** [extract_token] of the Bedrock branch.  [message] is the enclosing
    function's local of that name, which the AI21 case parses. *)
Definition extract_token (syn : synapse) (message : string) (chunk : json)
    : result json :=
  match family_of (model syn) with
  | Some Cohere => (v ←? json_get chunk "text"; ok (json_or_empty v))%result
  | Some Meta =>
      (v ←? json_get chunk "generation"; ok (json_or_empty v))%result
  | Some Anthropic =>
      (ty ←? json_item chunk "type";
       if json_is_str ty "content_block_delta"
       then
         delta ←? json_item chunk "delta";
         dty ←? json_item delta "type";
         if json_is_str dty "text_delta"
         then json_item delta "text"
         else ok (JStr "")
       else ok (JStr ""))%result
  | Some Mistral =>
      (outputs ←? json_get chunk "outputs";
       o ←? json_first outputs;
       v ←? json_item o "text";
       ok (json_or_empty v))%result
  | Some Amazon =>
      (v ←? json_get chunk "outputText"; ok (json_or_empty v))%result
  | Some AI21 =>
      (parsed ←? json_loads up message;
       completions ←? json_item parsed "completions";
       c ←? json_first completions;
       data ←? json_item c "data";
       json_item data "text")%result
  | None => throw (UnboundLocalError "token")
  end.
End Translate.

(** ** [_prompt] *)

Section Prompt.
Context (up : upstream).

(** The flush size: [n = 1] in every buffered branch. *)
Definition n : nat := 1.

(** One turn of the buffered loop of the OpenAI, Groq and Bedrock
    branches: [buffer.append(token)], and a [more_body=True] send of the
    joined buffer when it holds [n] tokens.  Returns the buffer. *)
Definition buffered_step {C T} (token_of : C → result T)
    (join_tokens : list T → result string) (buffer : list T) (chunk : C)
    : M (list T) :=
  (token ← lift (token_of chunk);
   let buffer := buffer ++ [token] in
   if Nat.eqb (length buffer) n
   then
     joined_buffer ← lift (join_tokens buffer);
     send joined_buffer true;;
     logging (LogInfo ("Streamed tokens: " +:+ joined_buffer));;
     mret []
   else mret buffer)%M.

(** The loop itself; it returns the buffer left over. *)
Definition buffered_loop {C T} (token_of : C → result T)
    (join_tokens : list T → result string) (s : stream C) : M (list T) :=
  for_stream s (buffered_step token_of join_tokens) [].

(** [if buffer: ... send(..., "more_body": False)] after the loop. *)
Definition final_flush {T} (join_tokens : list T → result string)
    (buffer : list T) : M unit :=
  match buffer with
  | [] => mret tt
  | _ :: _ =>
      (joined_buffer ← lift (join_tokens buffer);
       send joined_buffer false;;
       logging (LogInfo ("Streamed tokens: " +:+ joined_buffer)))%M
  end.

(** [chunk.choices[0].delta.content or ""] *)
Definition chat_token (chunk : chat_chunk) : result string :=
  match chunk with
  | [] => throw IndexError
  | content :: _ => ok (or_empty content)
  end.

(** [await send({..., "body": b'', "more_body": False})] *)
Definition close_stream : M unit := send "" false.

Definition openai_branch (syn : synapse) : M unit :=
  (filtered_messages ← lift (openai_messages (messages syn));
   response ← call (openai_client up)
     (OpenAIChatCompletions (model syn) filtered_messages
        (temperature syn) (seed syn) (max_tokens syn));
   buffer ← buffered_loop chat_token join response;
   final_flush join buffer)%M.

Definition anthropic_bedrock_branch (syn : synapse) : M unit :=
  (stream ← call (anthropic_bedrock_client up)
     (AnthropicBedrockCompletions
        (nl +:+ nl +:+ "Human: " +:+ py_str up (messages syn)
         +:+ nl +:+ nl +:+ "Assistant:")
        (max_tokens syn) (temperature syn) (top_k syn) (top_p syn)
        (model syn));
   for_stream stream
     (λ _ completion,
        if str_truthy completion
        then
          send completion true;;
          logging (LogInfo ("Streamed text: " +:+ completion))
        else mret tt)
     tt;;
   close_stream)%M.

Definition anthropic_branch (syn : synapse) : M unit :=
  (r ← lift (generate_messages_to_claude up (messages syn));
   let '(filtered_messages, system_prompt) := r in
   stream ← call (anthropic_client up)
     (AnthropicMessagesStream (max_tokens syn) filtered_messages
        (model syn) (system_kwarg system_prompt));
   for_stream stream
     (λ _ text,
        send text true;;
        logging (LogInfo ("Streamed text: " +:+ text)))
     tt;;
   close_stream)%M.

Definition gemini_branch (syn : synapse) : M unit :=
  (stream ← call (genai_model up)
     (GeminiGenerateContent (model syn) (py_str up (messages syn))
        (temperature syn) (top_p syn) (top_k syn));
   for_stream stream
     (λ _ chunk,
        match candidates chunk with
        | [] => raise IndexError
        | parts :: _ =>
            for_each
              (λ _ part,
                 send (text chunk) true;;
                 logging (LogInfo ("Streamed text: " +:+ text chunk)))
              parts tt
        end)
     tt;;
   close_stream)%M.

Definition groq_branch (syn : synapse) : M unit :=
  (stream ← call (groq_client up)
     (GroqChatCompletions (messages syn) (model syn) (temperature syn)
        (max_tokens syn) (top_p syn) (seed syn));
   buffer ← buffered_loop chat_token join stream;
   mret tt)%M.

Definition bedrock_branch (syn : synapse) : M unit :=
  (request ← lift (generate_request up syn);
   if startswith "ai21" (model syn)
   then
     message ← call (bedrock_invoke_model up)
       (BedrockInvokeModel (model syn) request);
     token ← lift (extract_token up syn message (JStr message));
     match token with
     | JStr message =>
         send message true;;
         logging (LogInfo ("Streamed tokens: " +:+ message))
     | _ => raise (AttributeError "encode")
     end
   else
     stream ← call (bedrock_invoke_stream up)
       (BedrockInvokeModelWithResponseStream (model syn) request);
     buffer ← buffered_loop
       (λ event, chunk ←? json_loads up event;
                 extract_token up syn "" chunk)%result
       json_join stream;
     final_flush json_join buffer)%M.

(** The [try] body of [_prompt]: the [if provider == ... / elif] chain. *)
Definition _prompt_body (syn : synapse) : M unit :=
  if String.eqb (provider syn) "OpenAI" then openai_branch syn
  else if String.eqb (provider syn) "AnthropicBedrock"
    then anthropic_bedrock_branch syn
  else if String.eqb (provider syn) "Anthropic" then anthropic_branch syn
  else if String.eqb (provider syn) "Gemini" then gemini_branch syn
  else if String.eqb (provider syn) "Groq" then groq_branch syn
  else if String.eqb (provider syn) "Bedrock" then bedrock_branch syn
  else logging (LogError ("Unknown provider: " +:+ provider syn)).

(** [_prompt(synapse, send)]: the body under
    [except Exception as e: bt.logging.error(...)].  It returns nothing
    and raises nothing. *)
Definition _prompt (syn : synapse) (w : world) : world :=
  match _prompt_body syn w with
  | (inr _, w') => w'
  | (inl e, w') =>
      {| sink := sink w';
         log := log w' ++ [LogException "error in _prompt " e];
         calls := calls w' |}
  end.
End Prompt.

(** The provider names [_prompt] has a branch for. *)
Definition known_providers : list string :=
  ["OpenAI"; "AnthropicBedrock"; "Anthropic"; "Gemini"; "Groq"; "Bedrock"].

(** ** Providers with a given chunk sequence, used in the examples *)

(** The sink protocol: any number of [more_body=True] sends, closed by one
    send of the empty body with [more_body=False]. *)
Definition terminator : send_event := {| body := ""; more_body := false |}.

Fixpoint well_terminated (sends : list send_event) : bool :=
  match sends with
  | [] => false
  | [s] => negb (more_body s) && negb (str_truthy (body s))
  | s :: rest => more_body s && well_terminated rest
  end.

Definition yielding {C} (chunks : list C) (fail : option exn) : stream C :=
  {| items := chunks; failure := fail |}.

(** Every client answers any call with the text deltas [tokens], one per
    chunk, and then ends the sequence normally or by raising [fail]. *)
Definition provider_yielding (tokens : list string) (fail : option exn)
    : upstream :=
  {| openai_client := λ _, ok (yielding ((λ t, [Some t]) <$> tokens) fail);
     anthropic_bedrock_client := λ _, ok (yielding tokens fail);
     anthropic_client := λ _, ok (yielding tokens fail);
     genai_model := λ _,
       ok (yielding ((λ t, {| candidates := [[t]]; text := t |}) <$> tokens)
             fail);
     groq_client := λ _, ok (yielding ((λ t, [Some t]) <$> tokens) fail);
     bedrock_invoke_model := λ _, ok (String.concat "" tokens);
     bedrock_invoke_stream := λ _, ok (yielding tokens fail);
     httpx_get := λ _, throw (UpstreamError "no network");
     b64encode := λ raw, raw;
     py_str := λ _, "[...]";
     json_dumps := λ _, "{...}";
     json_loads := λ raw, ok (JDict [("text", JStr raw)]) |}.

Definition request_with (provider : string)
    (messages : list (gmap string string)) : synapse :=
  {| provider := provider;
     model := "cohere.command-text-v14";
     messages := messages;
     seed := 0;
     temperature := 1;
     max_tokens := 64;
     top_p := 1;
     top_k := 1 |}.

Definition user_message (content : string) : gmap string string :=
  {[ "role" := "user"; "content" := content ]}.

Definition system_message (content : string) : gmap string string :=
  {[ "role" := "system"; "content" := content ]}.

Definition user_request (provider : string) : synapse :=
  request_with provider [user_message "hi"].

(** ** Vocabulary of the statements *)

Definition streaming (s : send_event) : Prop := more_body s = true.

(** The computation only makes [more_body=True] sends. *)
Definition streams_only {A} (m : M A) : Prop :=
  ∀ w r w', m w = (r, w') →
    ∃ sends, sink w' = sink w ++ sends ∧ Forall streaming sends.

(** Whenever the computation raises, the sends it made before are all
    [more_body=True] sends. *)
Definition open_on_raise {A} (m : M A) : Prop :=
  ∀ w e w', m w = (inl e, w') →
    ∃ sends, sink w' = sink w ++ sends ∧ Forall streaming sends.

(** The computation raises, whatever the world it starts in. *)
Definition raises {A} (m : M A) : Prop :=
  ∀ w, ∃ e w', m w = (inl e, w').

(** Every chunk sequence the client hands out ends by raising. *)
Definition ends_raising {C} (client : upstream_call → result (stream C))
    : Prop :=
  ∀ c s, client c = inr s → is_Some (failure s).

Definition streams_raise (up : upstream) : Prop :=
  ends_raising (openai_client up)
  ∧ ends_raising (anthropic_bedrock_client up)
  ∧ ends_raising (anthropic_client up)
  ∧ ends_raising (genai_model up)
  ∧ ends_raising (groq_client up)
  ∧ ends_raising (bedrock_invoke_stream up).

(** The dispatch drives a provider's chunk sequence: the provider is
    known, and it is not the single-response AI21 path of Bedrock. *)
Definition drives_stream (syn : synapse) : Prop :=
  provider syn ∈ known_providers
  ∧ ¬ (provider syn = "Bedrock" ∧ startswith "ai21" (model syn) = true).

(** The computation issues no upstream call. *)
Definition no_call {A} (m : M A) : Prop :=
  ∀ w r w', m w = (r, w') → calls w' = calls w.

(** The sends and log lines of one [more_body=True] flush per token. *)
Definition streamed (tokens : list string) : list send_event :=
  (λ t, {| body := t; more_body := true |}) <$> tokens.

Definition streamed_log (tokens : list string) : list log_entry :=
  (λ t, LogInfo ("Streamed tokens: " +:+ t)) <$> tokens.

Definition error_log (fail : option exn) : list log_entry :=
  match fail with
  | None => []
  | Some e => [LogException "error in _prompt " e]
  end.

(** The same request with another message list. *)
Definition with_messages (syn : synapse)
    (messages : list (gmap string string)) : synapse :=
  {| provider := provider syn;
     model := model syn;
     messages := messages;
     seed := seed syn;
     temperature := temperature syn;
     max_tokens := max_tokens syn;
     top_p := top_p syn;
     top_k := top_k syn |}.

(** The content of a system message, and the role of any other message. *)
Definition system_content (message : gmap string string) : option string :=
  match message !! "role" with
  | Some role => if String.eqb role "system" then message !! "content" else None
  | None => None
  end.

Definition regular_role (message : gmap string string) : option string :=
  match message !! "role" with
  | Some role => if String.eqb role "system" then None else Some role
  | None => None
  end.

Definition system_contents (messages : list (gmap string string))
    : list string := omap system_content messages.

Definition regular_roles (messages : list (gmap string string))
    : list string := omap regular_role messages.

Create HintDb dispatch discriminated.

End Dispatch.

(** * Embedding batches: [embeddings] *)

Module Embedding.

(** An embedding, and an element of [result.data]. *)
Definition vector : Type := list Q.

Record item : Type := {
  embedding : vector;
  index : nat;
}.

(** [openai_client.embeddings.create(input=..., model=...,
    encoding_format='float')], awaited: the [data] of the response, or the
    exception the call ends with.  The client is not defined in the
    miner's sources, so it is a parameter. *)
Definition embeddings_client : Type := list string → string → result (list item).

(** ** [str.strip] *)

(** [str.isspace] on one character. *)
Definition isspace (a : Ascii.ascii) : bool :=
  let k := Ascii.nat_of_ascii a in
  ((9 <=? k) && (k <=? 13) || (28 <=? k) && (k <=? 32)
   || (k =? 133) || (k =? 160))%nat.

Fixpoint lstrip (s : string) : string :=
  match s with
  | EmptyString => EmptyString
  | String a rest => if isspace a then lstrip rest else s
  end.

Definition rstrip (s : string) : string := String.rev (lstrip (String.rev s)).

Definition strip (s : string) : string := rstrip (lstrip s).

(** ** [get_embeddings_in_batch] *)

(** [range(0, stop, step)] for [stop >= 0]: a zero step raises. *)
Definition py_range (stop step : Z) : result (list Z) :=
  if bool_decide (step = 0) then throw ValueError
  else if bool_decide (step < 0) then ok []
  else ok ((λ k, Z.of_nat k * step) <$> seq 0 (Z.to_nat ((stop + step - 1) / step))).

(** [texts[i:j]] for [0 <= i]. *)
Definition slice {A} (l : list A) (i j : Z) : list A :=
  take (Z.to_nat (j - i)) (drop (Z.to_nat i) l).

(** [[texts[i:i + batch_size] for i in range(0, len(texts), batch_size)]] *)
Definition batches_of (texts : list string) (batch_size : Z)
    : result (list (list string)) :=
  (starts ←? py_range (Z.of_nat (length texts)) batch_size;
   ok ((λ i, slice texts i (i + batch_size)) <$> starts))%result.

(** [[text for text in batch if text.strip()]] *)
Definition filtered_batch (batch : list string) : list string :=
  List.filter (λ text, str_truthy (strip text)) batch.

(** The first loop: one task per batch that is not empty after filtering,
    and a log line per batch that is. *)
Fixpoint make_tasks (batches : list (list string))
    : list (list string) * list log_entry :=
  match batches with
  | [] => ([], [])
  | batch :: rest =>
      let '(tasks, lg) := make_tasks rest in
      match filtered_batch batch with
      | [] => (tasks, LogInfo "Skipped an empty batch." :: lg)
      | (_ :: _) as filtered => (filtered :: tasks, lg)
      end
  end.

(** [asyncio.gather] over the tasks with [return_exceptions=True], awaited:
    the outcome of every task, in task order. *)
Definition gather (client : embeddings_client) (model : string)
    (tasks : list (list string)) : list (result (list item)) :=
  (λ input, client input model) <$> tasks.

(** The second loop, with its accumulator [all_embeddings]. *)
Fixpoint collect (results : list (result (list item)))
    (all_embeddings : list vector) : list vector * list log_entry :=
  match results with
  | [] => (all_embeddings, [])
  | inl e :: rest =>
      let '(out, lg) := collect rest all_embeddings in
      (out, LogException "Error in processing batch: " e :: lg)
  | inr data :: rest =>
      let batch_embeddings := embedding <$> data in
      collect rest (all_embeddings ++ batch_embeddings)
  end.

(** What a run of [get_embeddings_in_batch] does: the batches sent
    upstream, the value returned, and the log lines written. *)
Record run : Type := {
  issued : list (list string);
  returned : list vector;
  log : list log_entry;
}.

Definition get_embeddings_in_batch (client : embeddings_client)
    (texts : list string) (model : string) (batch_size : Z) : result run :=
  (batches ←? batches_of texts batch_size;
   let '(tasks, skipped) := make_tasks batches in
   let results := gather client model tasks in
   let '(all_embeddings, errors) := collect results [] in
   ok {| issued := tasks;
         returned := all_embeddings;
         log := skipped ++ errors |})%result.

(** ** Vocabulary of the statements *)

Definition is_cons {A} (l : list A) : bool :=
  match l with
  | [] => false
  | _ :: _ => true
  end.

(** The vectors a batch contributes: those of its response, or none when
    its call failed; and the exception of a failed call. *)
Definition vectors_of (r : result (list item)) : option (list vector) :=
  match r with
  | inl _ => None
  | inr data => Some (embedding <$> data)
  end.

Definition failure_of (r : result (list item)) : option exn :=
  match r with
  | inl e => Some e
  | inr _ => None
  end.

Definition successes (client : embeddings_client) (model : string)
    (tasks : list (list string)) : list (list vector) :=
  omap (λ input, vectors_of (client input model)) tasks.

Definition failures (client : embeddings_client) (model : string)
    (tasks : list (list string)) : list exn :=
  omap (λ input, failure_of (client input model)) tasks.

Definition is_exception_entry (entry : log_entry) : bool :=
  match entry with
  | LogException _ _ => true
  | _ => false
  end.

(** The batching as the specification words it: filter the whole list
    first, then partition the survivors. *)
Definition filter_then_partition (texts : list string) (batch_size : Z)
    : result (list (list string)) :=
  batches_of (filtered_batch texts) batch_size.

(** ** A client used in the examples *)

(** The embedding of a text is the code of its first character; the call
    fails on the batch [["x"]]. *)
Definition code_vector (text : string) : vector :=
  match text with
  | EmptyString => []
  | String a _ => [inject_Z (Z.of_nat (Ascii.nat_of_ascii a))]
  end.

Definition example_client : embeddings_client :=
  λ input _,
    match input with
    | ["x"] => throw (UpstreamError "rate limited")
    | _ => ok ((λ text, {| embedding := code_vector text; index := 0 |})
                 <$> input)
    end.

Definition example_texts : list string := ["x"; ""; "  "; "y"; "z"].

End Embedding.

(** * The gate in service, and the start-up check *)

Module Serving.
Import Admission.

(** The same caller asking again at the successive times [times]: one
    call of [base_blacklist] per time, each on the state the previous one
    left. *)
Fixpoint serve (c : cortext_constants) (mg : metagraph) (syn : synapse)
    (blacklist_amt : Z) (m : miner) (times : list Q)
    : list (option decision) * miner :=
  match times with
  | [] => ([], m)
  | current_time :: later =>
      let '(d, m1) := base_blacklist c mg m syn blacklist_amt current_time in
      let '(ds, m2) := serve c mg syn blacklist_amt m1 later in
      (d :: ds, m2)
  end.

(** The first component of a decision, when there is one. *)
Definition blacklisted (d : option decision) : option bool := fst <$> d.

(** How [check_hotkey_validation] ends: [sys.exit()], or
    [self.my_subnet_uid] set, or an exception. *)
Inductive startup : Type :=
| Exit
| Uid (my_subnet_uid : nat)
| Raised (e : exn).

(** [check_hotkey_validation(self)]; [ss58_address] is
    [self.wallet.hotkey.ss58_address] and [wallet] the text of
    [self.wallet] inside the error message. *)
Definition check_hotkey_validation (mg : metagraph)
    (ss58_address wallet : string) : startup * list log_entry :=
  if bool_decide (ss58_address ∉ hotkeys mg)
  then
    (Exit,
     [LogError (Dispatch.nl +:+ "Your miner: " +:+ wallet
                +:+ " is not registered to this subnet" +:+ Dispatch.nl
                +:+ "Run btcli recycle_register --netuid 18 and try again. ")])
  else
    match hotkeys_index mg ss58_address with
    | inl e => (Raised e, [])
    | inr uid =>
        (Uid uid, [LogInfo ("Running miner on uid: " +:+ pretty uid)])
    end.

(** The example constants on a deployment that turns non-registered
    callers away. *)
Definition strict_constants : cortext_constants :=
  {| ALLOW_NON_REGISTERED := false;
     MIN_REQUEST_PERIOD := 1;
     MAX_REQUESTS := 2;
     PROMPT_BLACKLIST_STAKE := 100;
     ISALIVE_BLACKLIST_STAKE := 10;
     IMAGE_BLACKLIST_STAKE := 100;
     EMBEDDING_BLACKLIST_STAKE := 100 |}.

(** ** Vocabulary of the statements *)

(** A timestamp the pruning loop drops when it is at the head. *)
Definition expired (current_time time_window t : Q) : Prop :=
  Qgtb (current_time - t) time_window = true.

(** Every window holds at most [limit] timestamps. *)
Definition windows_bounded (limit : Z) (ts : gmap string (list Q)) : Prop :=
  map_Forall (λ _ dq, Z.of_nat (length dq) <= limit) ts.

(** A window in time order whose timestamps are not after [current_time]. *)
Definition in_time_order (current_time : Q) (dq : list Q) : Prop :=
  StronglySorted Qle dq ∧ Forall (λ t, (t <= current_time)%Q) dq.

End Serving.

(** * The sink protocol and the upstream calls of a dispatch *)

Module Protocol.
Import Dispatch.

(** The sends of the computation are [more_body=True] sends, followed by
    at most one closing send ([terminator]). *)
Definition closes_at_most_once {A} (m : M A) : Prop :=
  ∀ w r w', m w = (r, w') →
    ∃ pre, Forall streaming pre
           ∧ (sink w' = sink w ++ pre
              ∨ sink w' = sink w ++ pre ++ [terminator]).

(** When the computation returns, its sends are [more_body=True] sends
    followed by the closing send. *)
Definition closes_on_return {A} (m : M A) : Prop :=
  ∀ w a w', m w = (inr a, w') →
    ∃ pre, Forall streaming pre ∧ sink w' = sink w ++ pre ++ [terminator].

(** The computation issues one upstream call at most. *)
Definition calls_at_most_once {A} (m : M A) : Prop :=
  ∀ w r w', m w = (r, w') →
    ∃ cs, calls w' = calls w ++ cs ∧ (length cs ≤ 1)%nat.

(** The branches with a buffered loop, and the branches that end in
    [close_stream]. *)
Definition buffered_providers : list string := ["OpenAI"; "Groq"; "Bedrock"].
Definition closing_providers : list string :=
  ["AnthropicBedrock"; "Anthropic"; "Gemini"].

(** The closing send of a chunk sequence that ended normally. *)
Definition closing (fail : option exn) : list send_event :=
  match fail with
  | None => [terminator]
  | Some _ => []
  end.




(** An upstream whose Bedrock gateway answers [invoke_model] with a body
    that parses to an AI21 response carrying the text [answer]. *)
Definition ai21_response (answer : string) : json :=
  JDict [("id", JInt 1);
         ("completions",
          JList [JDict [("data", JDict [("text", JStr answer)])]])].

Definition ai21_upstream (answer : string) : upstream :=
  {| openai_client := λ _, throw (UpstreamError "unused");
     anthropic_bedrock_client := λ _, throw (UpstreamError "unused");
     anthropic_client := λ _, throw (UpstreamError "unused");
     genai_model := λ _, throw (UpstreamError "unused");
     groq_client := λ _, throw (UpstreamError "unused");
     bedrock_invoke_model := λ _, ok "body";
     bedrock_invoke_stream := λ _, throw (UpstreamError "unused");
     httpx_get := λ _, throw (UpstreamError "unused");
     b64encode := λ raw, raw;
     py_str := λ _, "[...]";
     json_dumps := λ _, "{...}";
     json_loads := λ _, ok (ai21_response answer) |}.

Definition ai21_request : synapse :=
  {| provider := "Bedrock"; model := "ai21.j2-mid-v1";
     messages := [user_message "hi"]; seed := 0; temperature := 1;
     max_tokens := 64; top_p := 1; top_k := 1 |}.

(** [chunk.choices[0].delta.content or ""] of a chunk that has a choice. *)
Definition delta_content (chunk : chat_chunk) : string :=
  or_empty (default None (head chunk)).

Definition has_choice (chunk : chat_chunk) : Prop := chunk ≠ [].

(** A chat stream with an unset delta, an empty one and a chunk of two
    choices, ending by an exception. *)
Definition chat_stream : stream chat_chunk :=
  yielding [[Some "a"]; [None]; [Some ""]; [Some "b"; Some "c"]]
    (Some (UpstreamError "connection reset")).

Definition chat_upstream : upstream :=
  {| openai_client := λ _, ok chat_stream;
     anthropic_bedrock_client := λ _, throw (UpstreamError "unused");
     anthropic_client := λ _, throw (UpstreamError "unused");
     genai_model := λ _, throw (UpstreamError "unused");
     groq_client := λ _, ok chat_stream;
     bedrock_invoke_model := λ _, throw (UpstreamError "unused");
     bedrock_invoke_stream := λ _, throw (UpstreamError "unused");
     httpx_get := λ _, throw (UpstreamError "unused");
     b64encode := λ raw, raw;
     py_str := λ _, "[...]";
     json_dumps := λ _, "{...}";
     json_loads := λ _, throw (UpstreamError "unused") |}.

(** A message the Claude translation handles without any fetch: it has a
    role, a content when it is a system message, and no image. *)
Definition plain (message : gmap string string) : Prop :=
  is_Some (message !! "role")
  ∧ (message !! "role" = Some "system" → is_Some (message !! "content"))
  ∧ opt_truthy (message !! "image") = false.

(** The translation of a plain message: nothing for a system message, the
    role and the text block otherwise. *)
Definition plain_translation (message : gmap string string)
    : option out_message :=
  match regular_role message with
  | None => None
  | Some role =>
      Some {| om_role := role;
              om_content :=
                if opt_truthy (message !! "content")
                then [TextBlock (default "" (message !! "content"))]
                else [] |}
  end.

End Protocol.

(** * The embedding handler *)

Module EmbeddingHandler.
Import Embedding.

(** The text of a list of floats inside a log message. *)
Definition show_vector (v : vector) : string :=
  "[" +:+ String.concat ", " (Admission.show_float <$> v) +:+ "]".

(** [embeddings(self, synapse)]: the log line on entry, then the [try]
    block under [except Exception].  The value is the [embeddings] of the
    synapse returned, or [None] when the function returns nothing;
    [synapse.embeddings[0]] raises [IndexError] on an empty list. *)
Definition embeddings (client : embeddings_client) (texts : list string)
    (model : string) : option (list vector) * list log_entry :=
  let entered :=
    LogInfo ("entered embeddings processing for embeddings of len "
             +:+ pretty (length texts)) in
  match get_embeddings_in_batch client texts model 10 with
  | inl e =>
      (None, [entered; LogException "Exception in embeddings function: " e])
  | inr r =>
      match returned r with
      | [] =>
          (None,
           entered :: log r
           ++ [LogException "Exception in embeddings function: " IndexError])
      | first :: _ =>
          (Some (returned r),
           entered :: log r
           ++ [LogInfo ("synapse response is "
                        +:+ show_vector (take 10 first))])
      end
  end.

(** ** Vocabulary of the statements *)

(** The string holds whitespace only (the empty string does). *)
Fixpoint all_space (s : string) : bool :=
  match s with
  | EmptyString => true
  | String a rest => isspace a && all_space rest
  end.

(** A text the filter drops. *)
Definition blank (text : string) : Prop := str_truthy (strip text) = false.

(** The call on the batch fails. *)
Definition fails (client : embeddings_client) (model : string)
    (input : list string) : Prop :=
  ∃ e, client input model = throw e.

(** The client embeds every text on its own, as [embed] says, and keeps
    the order of its input. *)
Definition pointwise (client : embeddings_client) (model : string)
    (embed : string → vector) : Prop :=
  ∀ input, ∃ data, client input model = ok data
                   ∧ embedding <$> data = embed <$> input.

(** A client that fails on every batch. *)
Definition failing_client : embeddings_client :=
  λ _ _, throw (UpstreamError "unavailable").

(** A client that embeds a text as the code of its first character. *)
Definition code_client : embeddings_client :=
  λ input _,
    ok ((λ text, {| embedding := code_vector text; index := 0 |}) <$> input).

End EmbeddingHandler.

(** * Image requests: [images] *)

Module Images.

(** The fields of [ImageResponse] the handler passes on, the text of the
    whole synapse ([synapse_text]) and of the tuple of its fields
    ([data_text]) inside the two log messages. *)
Record synapse : Type := {
  provider : string;
  model : string;
  messages : string;
  size : string;
  quality : string;
  style : string;
  synapse_text : string;
  data_text : string;
}.

(** An element of [meta.data]. *)
Record image : Type := {
  url : option string;
  revised_prompt : option string;
}.

(** [openai_client.images.generate(model=..., prompt=..., size=...,
    quality=..., style=...)], awaited: [meta.data], or the exception.  The
    client is not defined in the miner's sources, so it is a parameter. *)
Record generate_call : Type := {
  call_model : string;
  call_prompt : string;
  call_size : string;
  call_quality : string;
  call_style : string;
}.

Definition images_client : Type := generate_call → result (list image).

(** What a run of the handler does: the [completion] of the synapse it
    returns ([None] when it returns nothing), the log lines and the
    upstream calls. *)
Record outcome : Type := {
  completion : option (gmap string (option string));
  log : list log_entry;
  calls : list generate_call;
}.

(** The text of an optional string inside an f-string. *)
Definition show_optional (o : option string) : string := default "None" o.

(** [images(self, synapse)] *)
Definition images (client : images_client) (syn : synapse) : outcome :=
  let received := LogInfo ("received image request: " +:+ synapse_text syn) in
  let data := LogDebug ("data = " +:+ data_text syn) in
  if String.eqb (provider syn) "OpenAI"
  then
    let c := {| call_model := model syn; call_prompt := messages syn;
                call_size := size syn; call_quality := quality syn;
                call_style := style syn |} in
    match client c with
    | inl e =>
        {| completion := None;
           log := [received; data; LogException "error in images: " e];
           calls := [c] |}
    | inr [] =>
        {| completion := None;
           log := [received; data;
                   LogException "error in images: " IndexError];
           calls := [c] |}
    | inr (first :: _) =>
        let image_url := url first in
        let image_revised_prompt := revised_prompt first in
        {| completion :=
             Some (<["image_revised_prompt" := image_revised_prompt]>
                     (<["url" := image_url]> ∅));
           log := [received; data;
                   LogInfo ("returning image response of "
                            +:+ show_optional image_url)];
           calls := [c] |}
    end
  else
    {| completion := Some ∅;
       log := [received; data;
               LogError ("Unknown provider: " +:+ provider syn)];
       calls := [] |}.

(** An image request, used in the examples. *)
Definition example_request (provider : string) : synapse :=
  {| provider := provider; model := "dall-e-3"; messages := "a red kite";
     size := "1024x1024"; quality := "standard"; style := "vivid";
     synapse_text := "ImageResponse(...)"; data_text := "(...)" |}.

End Images.

(** * The scan of the running wandb runs: [get_valid_hotkeys] *)

Module ValidHotkeys.

(** A wandb run: [run.state], [run.id] and [run.config]. *)
Record wandb_run : Type := {
  state : string;
  id : string;
  config : gmap string string;
}.

Section Scan.
(** [verify hotkey run_id signature] is
    [bt.Keypair(ss58_address=hotkey).verify(run_id, bytes.fromhex(signature))]:
    it may raise.  [hotkeys] is [metagraph.hotkeys] and [latest_version]
    the value of [get_version()].  None of the three is code of the
    miner. *)
Context (verify : string → string → string → result bool)
        (hotkeys : list string) (latest_version : option string).

(** The checks of one running run, after its three config reads: the
    hotkey list to go on with, and the log lines written. *)
Definition check_run (valid_hotkeys : list string) (run : wandb_run)
    (hotkey signature version : string) : list string * list log_entry :=
  let found := LogDebug ("found running run of hotkey " +:+ hotkey +:+ ", "
                         +:+ version +:+ " ") in
  match latest_version with
  | None => (valid_hotkeys, [found; LogError "Github API call failed!"])
  | Some latest =>
      if negb (String.eqb latest version)
      then (valid_hotkeys,
            [found;
             LogDebug ("Version Mismatch: Run version " +:+ version
                       +:+ " does not match GitHub version " +:+ latest)])
      else if bool_decide (hotkey ∉ hotkeys)
      then (valid_hotkeys,
            [found;
             LogDebug ("Invalid running run: The hotkey: " +:+ hotkey
                       +:+ " is not in the metagraph.")])
      else
        match verify hotkey (id run) signature with
        | inl e =>
            (valid_hotkeys,
             [found; LogException "exception in get_valid_hotkeys: " e])
        | inr false =>
            (valid_hotkeys,
             [found;
              LogDebug ("Failed Signature: The signature: " +:+ signature
                        +:+ " is not valid")])
        | inr true =>
            if bool_decide (hotkey ∉ valid_hotkeys)
            then (valid_hotkeys ++ [hotkey], [found])
            else (valid_hotkeys, [found])
        end
  end.

(** The body of [for run in runs]. *)
Definition consider (valid_hotkeys : list string) (run : wandb_run)
    : list string * list log_entry :=
  if String.eqb (state run) "running"
  then
    match (hotkey ←? getitem (config run) "hotkey";
           signature ←? getitem (config run) "signature";
           version ←? getitem (config run) "version";
           ok (hotkey, signature, version))%result with
    | inl e =>
        (valid_hotkeys, [LogException "exception in get_valid_hotkeys: " e])
    | inr (hotkey, signature, version) =>
        check_run valid_hotkeys run hotkey signature version
    end
  else (valid_hotkeys, []).

(** One pass over the runs: the loop, on the global [valid_hotkeys]. *)
Fixpoint scan (valid_hotkeys : list string) (runs : list wandb_run)
    : list string * list log_entry :=
  match runs with
  | [] => (valid_hotkeys, [])
  | run :: rest =>
      let '(valid1, lg1) := consider valid_hotkeys run in
      let '(valid2, lg2) := scan valid1 rest in
      (valid2, lg1 ++ lg2)
  end.

(** A run that passes every check of the loop body. *)
Definition accepted (run : wandb_run) (hotkey : string) : Prop :=
  state run = "running"
  ∧ config run !! "hotkey" = Some hotkey
  ∧ (∃ version, config run !! "version" = Some version
                ∧ latest_version = Some version)
  ∧ hotkey ∈ hotkeys
  ∧ ∃ signature, config run !! "signature" = Some signature
                 ∧ verify hotkey (id run) signature = ok true.
End Scan.

(** Two runs, used in the examples: the signature "aa" verifies, any
    other does not. *)
Definition example_verify (hotkey run_id signature : string) : result bool :=
  ok (String.eqb signature "aa").

Definition example_run (hotkey signature : string) : wandb_run :=
  {| state := "running"; id := "run-1";
     config := {[ "hotkey" := hotkey; "signature" := signature;
                  "version" := "4.0.0" ]} |}.

End ValidHotkeys.

(** * Properties of the admission gate *)

Module AdmissionFacts.
Import Admission.

Lemma window_of_insert (ts : gmap string (list Q)) (hotkey : string)
    (dq : list Q) :
  window_of (<[hotkey := dq]> ts) hotkey = dq.
Proof. unfold window_of. by rewrite lookup_insert_eq. Qed.

Lemma prune_expired (current_time time_window : Q) (dq : list Q) :
  Forall (λ t, Qgtb (current_time - t) time_window = true) dq →
  prune current_time time_window dq = [].
Proof.
  induction 1 as [| t rest Ht _ IH]; simpl; [done |].
  by rewrite Ht.
Qed.

(** Pruning only drops a prefix of the window. *)
Lemma prune_suffix (current_time time_window : Q) (dq : list Q) :
  prune current_time time_window dq `suffix_of` dq.
Proof.
  induction dq as [| t rest IH]; simpl; [done |].
  destruct (Qgtb _ _); [by apply suffix_cons_r | done].
Qed.

(** On a window in time order, the loop drops exactly the timestamps
    older than the window boundary. *)
Lemma prune_sorted (current_time time_window : Q) (dq : list Q) :
  StronglySorted Qle dq →
  prune current_time time_window dq
  = List.filter (λ t, negb (Qgtb (current_time - t) time_window)) dq.
Proof.
  induction 1 as [| t rest Hsorted IH Hle]; [done |]. simpl.
  destruct (Qgtb (current_time - t) time_window) eqn:Hold; simpl; [done |].
  f_equal. clear IH Hsorted.
  induction Hle as [| t' rest Htt' _ IH]; [done |]. simpl.
  assert (Hyoung : Qgtb (current_time - t') time_window = false).
  { unfold Qgtb in *. apply negb_false_iff, Qle_bool_iff.
    apply negb_false_iff, Qle_bool_iff in Hold. lra. }
  rewrite Hyoung. simpl. by rewrite <- IH.
Qed.

(** A request that does not reach the rate check leaves every window as
    it was, and is not admitted. *)
Lemma early_exit_keeps_windows (c : cortext_constants) (mg : metagraph)
    (m : miner) (syn : synapse) (blacklist_amt : Z) (current_time : Q) :
  (∀ hotkey, identity_and_stake c mg syn blacklist_amt ≠ ok (inr hotkey)) →
  request_timestamps (snd (base_blacklist c mg m syn blacklist_amt
                             current_time))
  = request_timestamps m
  ∧ ∀ reason, fst (base_blacklist c mg m syn blacklist_amt current_time)
              ≠ Some (false, reason).
Proof.
  intros Hearly. unfold base_blacklist.
  destruct (identity_and_stake c mg syn blacklist_amt)
    as [e | [d | hotkey]] eqn:Hgate; simpl.
  - by split.
  - split; [done |]. intros reason [= ->].
    unfold identity_and_stake, rbind in Hgate.
    repeat case_match; simplify_eq.
  - by destruct (Hearly hotkey).
Qed.

(** A request that passes the registration and stake checks is the
    request of the hotkey it goes on with. *)
Lemma passing_caller (c : cortext_constants) (mg : metagraph)
    (syn : synapse) (blacklist_amt : Z) (hotkey : string) :
  identity_and_stake c mg syn blacklist_amt = ok (inr hotkey) →
  dendrite syn = Some hotkey.
Proof.
  unfold identity_and_stake, rbind. intros Hgate.
  destruct (dendrite syn) as [h |]; [| done].
  repeat case_match; simplify_eq; done.
Qed.

(** A stake prints as Python prints a float. *)
Example stake_prints_as_float :
  show_float (inject_Z 50) = "50.0"
  ∧ show_float (1 # 10) = "0.1"
  ∧ show_float (9999 # 4) = "2499.75"
  ∧ show_float (1 # 3) = "0.3333333333333333"
  ∧ show_float (1 # 100000) = "1e-05"
  ∧ show_float (inject_Z (10 ^ 16)) = "1e+16".
Proof. vm_compute. by repeat split. Qed.

(** The two early [return]s are rejections. *)
Lemma early_return_rejects (c : cortext_constants) (mg : metagraph)
    (syn : synapse) (blacklist_amt : Z) (d : decision) :
  identity_and_stake c mg syn blacklist_amt = ok (inl d) → d.1 = true.
Proof.
  unfold identity_and_stake, rbind. intros Hgate.
  repeat case_match; simplify_eq; done.
Qed.

(** C5. For every request: the decision is an admission exactly when the
    registration and stake checks pass and the caller's pruned window
    holds fewer than [MAX_REQUESTS] timestamps.  An admission appends the
    current time, once, to the pruned window of the caller and changes no
    other window; every other outcome (a rejection by the registration,
    the stake or the rate check, or an exception) appends nothing: the
    windows are as they were, or the caller's window is pruned.  So one
    append occurs if and only if the request is admitted.

    Once the registration and stake checks pass, the gate prunes the
    caller's window (on a window in time order: it drops the timestamps
    older than the window boundary) and decides on the number of
    timestamps left: at [MAX_REQUESTS] or more it rejects, with the reason
    that cites the count and the limit, and appends nothing; below it, it
    appends the current time and admits.  A caller whose recorded
    timestamps are all older than the window is admitted again. *)
Theorem C5_rate_check (c : cortext_constants) (mg : metagraph) (m : miner)
    (syn : synapse) (blacklist_amt : Z) (current_time : Q) :
  let time_window := inject_Z (MIN_REQUEST_PERIOD c * 60) in
  let window hotkey := window_of (request_timestamps m) hotkey in
  let pruned hotkey := prune current_time time_window (window hotkey) in
  let r := base_blacklist c mg m syn blacklist_amt current_time in
  let window' hotkey := window_of (request_timestamps (snd r)) hotkey in
  let admitted := ∃ reason, fst r = Some (false, reason) in
  (admitted
   ↔ ∃ hotkey, identity_and_stake c mg syn blacklist_amt = ok (inr hotkey)
               ∧ Z.of_nat (length (pruned hotkey)) < MAX_REQUESTS c)
  ∧ (admitted →
     ∃ hotkey, dendrite syn = Some hotkey
               ∧ request_timestamps (snd r)
                 = <[hotkey := pruned hotkey ++ [current_time]]>
                     (request_timestamps m))
  ∧ (¬ admitted →
     request_timestamps (snd r) = request_timestamps m
     ∨ ∃ hotkey, dendrite syn = Some hotkey
                 ∧ request_timestamps (snd r)
                   = <[hotkey := pruned hotkey]> (request_timestamps m))
  ∧ ∀ hotkey,
      identity_and_stake c mg syn blacklist_amt = ok (inr hotkey) →
      (StronglySorted Qle (window hotkey) →
         pruned hotkey
         = List.filter (λ t, negb (Qgtb (current_time - t) time_window))
             (window hotkey))
      ∧ (MAX_REQUESTS c <= Z.of_nat (length (pruned hotkey)) →
         fst r = Some (true, reason_frequency hotkey (length (pruned hotkey))
                               (MIN_REQUEST_PERIOD c) (MAX_REQUESTS c))
         ∧ window' hotkey = pruned hotkey)
      ∧ (Z.of_nat (length (pruned hotkey)) < MAX_REQUESTS c →
         fst r = Some (false, reason_accepting (type_name syn) hotkey)
         ∧ window' hotkey = pruned hotkey ++ [current_time])
      ∧ (admitted ↔ window' hotkey = pruned hotkey ++ [current_time])
      ∧ (Forall (λ t, Qgtb (current_time - t) time_window = true)
           (window hotkey) →
         0 < MAX_REQUESTS c →
         fst r = Some (false, reason_accepting (type_name syn) hotkey)
         ∧ window' hotkey = [current_time]).
Proof.
  intros time_window window pruned r window' admitted.
  destruct (identity_and_stake c mg syn blacklist_amt)
    as [e | [d | hotkey]] eqn:Hgate.
  - assert (Hr : r = (None, {| request_timestamps := request_timestamps m;
                               log := log m
                                 ++ [LogException "errror in blacklist " e] |})).
    { subst r. unfold base_blacklist. by rewrite Hgate. }
    subst admitted. rewrite Hr. simpl. split_and!.
    + split; [by intros [reason [= ]] | by intros (h & [= ] & _)].
    + by intros [reason [= ]].
    + by left.
    + by intros h [= ].
  - assert (Hr : r = (Some d, m)).
    { subst r. unfold base_blacklist. by rewrite Hgate. }
    pose proof (early_return_rejects _ _ _ _ _ Hgate) as Hd.
    destruct d as [blacklisted reason0]. simpl in Hd. subst blacklisted.
    subst admitted. rewrite Hr. simpl. split_and!.
    + split; [by intros [reason [= ]] | by intros (h & [= ] & _)].
    + by intros [reason [= ]].
    + by left.
    + by intros h [= ].
  - pose proof (passing_caller _ _ _ _ _ Hgate) as Hcaller.
    assert (Hrate : r = let '(d, m') := rate_check c m syn hotkey current_time
                        in (Some d, m')).
    { subst r. unfold base_blacklist. by rewrite Hgate. }
    unfold rate_check in Hrate.
    fold time_window (window hotkey) (pruned hotkey) in Hrate.
    assert (Hfull : MAX_REQUESTS c <= Z.of_nat (length (pruned hotkey)) →
              fst r = Some (true, reason_frequency hotkey
                                    (length (pruned hotkey))
                                    (MIN_REQUEST_PERIOD c) (MAX_REQUESTS c))
              ∧ request_timestamps (snd r)
                = <[hotkey := pruned hotkey]> (request_timestamps m)).
    { intros Hge. rewrite Hrate. by rewrite bool_decide_true by lia. }
    assert (Hroom : Z.of_nat (length (pruned hotkey)) < MAX_REQUESTS c →
              fst r = Some (false, reason_accepting (type_name syn) hotkey)
              ∧ request_timestamps (snd r)
                = <[hotkey := pruned hotkey ++ [current_time]]>
                    (request_timestamps m)).
    { intros Hlt. rewrite Hrate. by rewrite bool_decide_false by lia. }
    assert (Hiff : admitted
                   ↔ Z.of_nat (length (pruned hotkey)) < MAX_REQUESTS c).
    { subst admitted.
      destruct (Z_lt_le_dec (Z.of_nat (length (pruned hotkey)))
                  (MAX_REQUESTS c)) as [Hlt | Hge].
      - destruct (Hroom Hlt) as [-> _]. split; eauto.
      - destruct (Hfull Hge) as [-> _]. split; [by intros [? [= ]] | lia]. }
    split_and!.
    + rewrite Hiff. split; [by exists hotkey |].
      by intros (h & [= ->] & Hlt).
    + intros Hadm. exists hotkey. split; [done |].
      by apply Hroom, Hiff.
    + intros Hrej. right. exists hotkey. split; [done |].
      apply Hfull. rewrite Hiff in Hrej. lia.
    + intros h [= <-]. subst window'.
      split_and!; [apply prune_sorted | | | |].
      * intros Hge. destruct (Hfull Hge) as [-> ->].
        by rewrite window_of_insert.
      * intros Hlt. destruct (Hroom Hlt) as [-> ->].
        by rewrite window_of_insert.
      * rewrite Hiff.
        destruct (Z_lt_le_dec (Z.of_nat (length (pruned hotkey)))
                    (MAX_REQUESTS c)) as [Hlt | Hge].
        -- destruct (Hroom Hlt) as [_ ->].
           by rewrite window_of_insert.
        -- destruct (Hfull Hge) as [_ ->]. rewrite window_of_insert.
           split; [lia |]. intros Heq. apply (f_equal length) in Heq.
           rewrite length_app in Heq. simpl in Heq. lia.
      * intros Hold Hpos.
        assert (Hnil : pruned hotkey = []) by by apply prune_expired.
        destruct Hroom as [-> ->]; rewrite ?window_of_insert, Hnil; simpl;
          [lia | done].
Qed.

(** With a limit of two requests per minute, the third request of [hk1]
    inside the window is rejected and its window keeps the two
    timestamps; a minute later [hk1] is admitted again.  The request of
    [hk2], whose stake is below the threshold, is not admitted and
    leaves the windows as they were. *)
Lemma C5_rate_check_witness :
  let gate := base_blacklist example_constants example_metagraph busy_miner
                (request_from "hk1") 100 in
  let low := base_blacklist example_constants example_metagraph busy_miner
               (request_from "hk2") 100 (inject_Z 1002) in
  identity_and_stake example_constants example_metagraph (request_from "hk1")
    100 = ok (inr "hk1")
  ∧ (fst (gate (inject_Z 1002))
     = Some (true, "Request frequency for hk1 exceeded: 2 requests in 1 minutes. Limit is 2 requests.")
     ∧ window_of (request_timestamps (snd (gate (inject_Z 1002)))) "hk1"
       = [inject_Z 1000; inject_Z 1001])
  ∧ (fst (gate (inject_Z 1062))
     = Some (false, "accepting StreamPrompting request from hk1")
     ∧ window_of (request_timestamps (snd (gate (inject_Z 1062)))) "hk1"
       = [inject_Z 1062])
  ∧ ((∃ reason, fst low = Some (false, reason)) → False)
  ∧ request_timestamps (snd low) = request_timestamps busy_miner.
Proof.
  cbv zeta.
  pose proof (C5_rate_check example_constants example_metagraph busy_miner
                (request_from "hk1") 100 (inject_Z 1002)) as Hthird.
  pose proof (C5_rate_check example_constants example_metagraph busy_miner
                (request_from "hk1") 100 (inject_Z 1062)) as Hlater.
  pose proof (C5_rate_check example_constants example_metagraph busy_miner
                (request_from "hk2") 100 (inject_Z 1002)) as Hlow.
  cbv zeta in Hthird, Hlater, Hlow.
  destruct Hthird as (_ & _ & _ & Hthird).
  destruct Hlater as (_ & _ & _ & Hlater).
  destruct Hlow as (Hadmitted & _ & Hrejected & _).
  assert (Hno : (∃ reason,
                   fst (base_blacklist example_constants example_metagraph
                          busy_miner (request_from "hk2") 100
                          (inject_Z 1002)) = Some (false, reason)) → False).
  { intros Hadm. apply Hadmitted in Hadm as (hotkey & Hpass & _).
    vm_compute in Hpass. discriminate Hpass. }
  split; [reflexivity |]. split; [| split; [| split]].
  - exact (proj1 (proj2 (Hthird "hk1" eq_refl))
             ltac:(vm_compute; discriminate)).
  - exact (proj2 (proj2 (proj2 (proj2 (Hlater "hk1" eq_refl))))
             ltac:(vm_compute; repeat constructor)
             ltac:(reflexivity)).
  - exact Hno.
  - destruct (Hrejected Hno) as [Hsame | (hotkey & [= <-] & Hpruned)];
      [exact Hsame |].
    apply (f_equal (.!! "hk2")) in Hpruned.
    vm_compute in Hpruned. discriminate Hpruned.
Defined.

(** C6 (what the code does). When a lookup of the gate raises, the [except]
    branch logs the exception and the function falls off its end:
    [base_blacklist] returns [None], not a decision, and every wrapper
    then raises [TypeError] on [blacklist[1]]. *)
Theorem C6_error_yields_no_decision (c : cortext_constants) (mg : metagraph)
    (m : miner) (syn : synapse) (blacklist_amt : Z) (current_time : Q)
    (e : exn) (level : string → log_entry) :
  identity_and_stake c mg syn blacklist_amt = throw e →
  base_blacklist c mg m syn blacklist_amt current_time
  = (None, {| request_timestamps := request_timestamps m;
              log := log m ++ [LogException "errror in blacklist " e] |})
  ∧ fst (wrapper level
           (base_blacklist c mg m syn blacklist_amt current_time))
    = throw TypeError.
Proof.
  intros Hraise. unfold base_blacklist. by rewrite Hraise.
Qed.

(** A caller that is not registered, on a deployment that allows such
    callers: the stake lookup raises [ValueError]. *)
Lemma C6_error_yields_no_decision_witness :
  identity_and_stake example_constants example_metagraph (request_from "hk3")
    (PROMPT_BLACKLIST_STAKE example_constants) = throw ValueError
  ∧ fst (base_blacklist example_constants example_metagraph busy_miner
           (request_from "hk3") (PROMPT_BLACKLIST_STAKE example_constants)
           (inject_Z 1002)) = None
  ∧ fst (blacklist_prompt example_constants example_metagraph busy_miner
           (request_from "hk3") (inject_Z 1002)) = throw TypeError.
Proof.
  split; [reflexivity |].
  destruct (C6_error_yields_no_decision example_constants example_metagraph
              busy_miner (request_from "hk3")
              (PROMPT_BLACKLIST_STAKE example_constants) (inject_Z 1002)
              ValueError LogInfo eq_refl) as [Hnone Hraise].
  split; [by rewrite Hnone | exact Hraise].
Defined.

End AdmissionFacts.

(** * Properties of the streaming dispatcher *)

Module DispatchFacts.
Import Dispatch.

Lemma or_empty_Some (s : string) : or_empty (Some s) = s.
Proof. by destruct s. Qed.

(** ** Which sends a computation can make *)

Lemma streams_only_open {A} (m : M A) : streams_only m → open_on_raise m.
Proof. intros Hm w e w' Hrun. by eapply Hm. Qed.

Lemma streams_only_silent {A} (m : M A) :
  (∀ w, sink (snd (m w)) = sink w) → streams_only m.
Proof.
  intros Hsilent w r w' Hrun. exists [].
  specialize (Hsilent w). rewrite Hrun in Hsilent. simpl in Hsilent.
  by rewrite app_nil_r.
Qed.

Lemma streams_only_mret {A} (a : A) : streams_only (mret a).
Proof. by apply streams_only_silent. Qed.

Lemma streams_only_raise {A} (e : exn) : streams_only (@raise A e).
Proof. by apply streams_only_silent. Qed.

Lemma streams_only_lift {A} (r : result A) : streams_only (lift r).
Proof. by apply streams_only_silent. Qed.

Lemma streams_only_logging (entry : log_entry) : streams_only (logging entry).
Proof. by apply streams_only_silent. Qed.

Lemma streams_only_call {R} (client : upstream_call → result R)
    (c : upstream_call) : streams_only (call client c).
Proof. by apply streams_only_silent. Qed.

Lemma streams_only_send (b : string) : streams_only (send b true).
Proof.
  intros w r w' [= <- <-]. exists [{| body := b; more_body := true |}].
  split; [done |]. by apply Forall_singleton.
Qed.

Lemma streams_only_bind {A B} (m : M A) (k : A → M B) :
  streams_only m → (∀ a, streams_only (k a)) → streams_only (mbind m k).
Proof.
  intros Hm Hk w r w' Hrun. unfold mbind in Hrun.
  destruct (m w) as [[e | a] w1] eqn:Hmw.
  - injection Hrun as <- <-. by eapply Hm.
  - destruct (Hm _ _ _ Hmw) as (s1 & Hs1 & Hall1).
    destruct (Hk a _ _ _ Hrun) as (s2 & Hs2 & Hall2).
    exists (s1 ++ s2). rewrite Hs2, Hs1, (assoc_L (++)).
    split; [done |]. by apply Forall_app.
Qed.

Lemma open_on_raise_bind {A B} (m : M A) (k : A → M B) :
  streams_only m → (∀ a, open_on_raise (k a)) → open_on_raise (mbind m k).
Proof.
  intros Hm Hk w e w' Hrun. unfold mbind in Hrun.
  destruct (m w) as [[e1 | a] w1] eqn:Hmw.
  - injection Hrun as <- <-. by eapply Hm.
  - destruct (Hm _ _ _ Hmw) as (s1 & Hs1 & Hall1).
    destruct (Hk a _ _ _ Hrun) as (s2 & Hs2 & Hall2).
    exists (s1 ++ s2). rewrite Hs2, Hs1, (assoc_L (++)).
    split; [done |]. by apply Forall_app.
Qed.

#[local] Hint Resolve streams_only_mret streams_only_raise streams_only_lift
  streams_only_logging streams_only_call streams_only_send
  streams_only_bind : dispatch.

Lemma streams_only_for_each {C St} (body : St → C → M St) (xs : list C) :
  (∀ st x, streams_only (body st x)) →
  ∀ st, streams_only (for_each body xs st).
Proof.
  intros Hbody. induction xs as [| x xs IH]; intros st; simpl;
    eauto with dispatch.
Qed.

Lemma streams_only_for_stream {C St} (s : stream C) (body : St → C → M St)
    (st : St) :
  (∀ st x, streams_only (body st x)) → streams_only (for_stream s body st).
Proof.
  intros Hbody. unfold for_stream. apply streams_only_bind.
  - by apply streams_only_for_each.
  - intros st'. destruct (failure s); eauto with dispatch.
Qed.

Lemma streams_only_buffered_loop {C T} (token_of : C → result T)
    (join_tokens : list T → result string) (s : stream C) :
  streams_only (buffered_loop token_of join_tokens s).
Proof.
  unfold buffered_loop. apply streams_only_for_stream. intros buffer chunk.
  unfold buffered_step.
  apply streams_only_bind; [eauto with dispatch |]. intros token.
  destruct (Nat.eqb _ _); eauto 10 with dispatch.
Qed.

(** A closing send is the last thing a branch does: nothing after it can
    raise. *)
Lemma open_on_raise_close_stream : open_on_raise close_stream.
Proof. intros w e w' [=]. Qed.

Lemma open_on_raise_final_flush {T} (join_tokens : list T → result string)
    (buffer : list T) : open_on_raise (final_flush join_tokens buffer).
Proof.
  destruct buffer as [| token rest]; simpl.
  - apply streams_only_open; eauto with dispatch.
  - apply open_on_raise_bind; [eauto with dispatch |].
    intros joined w e w' [=].
Qed.

#[local] Hint Resolve streams_only_for_each streams_only_for_stream
  streams_only_buffered_loop : dispatch.

Section Branches.
Context (up : upstream) (syn : synapse).

Lemma open_on_raise_openai : open_on_raise (openai_branch up syn).
Proof.
  unfold openai_branch.
  apply open_on_raise_bind; [eauto with dispatch |]. intros fm.
  apply open_on_raise_bind; [eauto with dispatch |]. intros response.
  apply open_on_raise_bind; [eauto with dispatch |]. intros buffer.
  apply open_on_raise_final_flush.
Qed.

Lemma open_on_raise_anthropic_bedrock :
  open_on_raise (anthropic_bedrock_branch up syn).
Proof.
  unfold anthropic_bedrock_branch.
  apply open_on_raise_bind; [eauto with dispatch |]. intros stream.
  apply open_on_raise_bind; [| intros _; apply open_on_raise_close_stream].
  apply streams_only_for_stream. intros _ completion.
  destruct (str_truthy completion); eauto with dispatch.
Qed.

Lemma open_on_raise_anthropic : open_on_raise (anthropic_branch up syn).
Proof.
  unfold anthropic_branch.
  apply open_on_raise_bind; [eauto with dispatch |].
  intros [filtered_messages system_prompt].
  apply open_on_raise_bind; [eauto with dispatch |]. intros stream.
  apply open_on_raise_bind; [| intros _; apply open_on_raise_close_stream].
  apply streams_only_for_stream. intros _ t. eauto with dispatch.
Qed.

Lemma open_on_raise_gemini : open_on_raise (gemini_branch up syn).
Proof.
  unfold gemini_branch.
  apply open_on_raise_bind; [eauto with dispatch |]. intros stream.
  apply open_on_raise_bind; [| intros _; apply open_on_raise_close_stream].
  apply streams_only_for_stream. intros _ chunk.
  destruct (candidates chunk) as [| parts others]; [eauto with dispatch |].
  apply streams_only_for_each. intros _ part. eauto with dispatch.
Qed.

Lemma open_on_raise_groq : open_on_raise (groq_branch up syn).
Proof.
  unfold groq_branch. apply streams_only_open. eauto 10 with dispatch.
Qed.

Lemma open_on_raise_bedrock : open_on_raise (bedrock_branch up syn).
Proof.
  unfold bedrock_branch.
  apply open_on_raise_bind; [eauto with dispatch |]. intros request.
  destruct (startswith "ai21" (model syn)).
  - apply streams_only_open.
    apply streams_only_bind; [eauto with dispatch |]. intros message.
    apply streams_only_bind; [eauto with dispatch |]. intros token.
    destruct token; eauto with dispatch.
  - apply open_on_raise_bind; [eauto with dispatch |]. intros stream.
    apply open_on_raise_bind; [eauto with dispatch |]. intros buffer.
    apply open_on_raise_final_flush.
Qed.

Lemma open_on_raise_prompt_body : open_on_raise (_prompt_body up syn).
Proof.
  unfold _prompt_body.
  repeat case_match;
    auto using open_on_raise_openai, open_on_raise_anthropic_bedrock,
      open_on_raise_anthropic, open_on_raise_gemini, open_on_raise_groq,
      open_on_raise_bedrock.
  apply streams_only_open. eauto with dispatch.
Qed.
End Branches.

(** ** Running a bind *)

Lemma mbind_ok {A B} (m : M A) (k : A → M B) (w w1 : world) (a : A) :
  m w = (inr a, w1) → mbind m k w = k a w1.
Proof. intros Hm. unfold mbind. by rewrite Hm. Qed.

Lemma mbind_throw {A B} (m : M A) (k : A → M B) (w w1 : world) (e : exn) :
  m w = (inl e, w1) → mbind m k w = (inl e, w1).
Proof. intros Hm. unfold mbind. by rewrite Hm. Qed.

(** ** The buffered branches against a provider that yields text deltas *)

Lemma chat_step_exact (t : string) (w : world) :
  buffered_step chat_token join [] [Some t] w
  = (ok [],
     {| sink := sink w ++ [{| body := t; more_body := true |}];
        log := log w ++ [LogInfo ("Streamed tokens: " +:+ t)];
        calls := calls w |}).
Proof.
  unfold buffered_step, chat_token. rewrite or_empty_Some. reflexivity.
Qed.

Lemma chat_for_each_exact (tokens : list string) (w : world) :
  for_each (buffered_step chat_token join) ((λ t, [Some t]) <$> tokens) [] w
  = (ok [],
     {| sink := sink w ++ streamed tokens;
        log := log w ++ streamed_log tokens;
        calls := calls w |}).
Proof.
  revert w. induction tokens as [| t tokens IH]; intros w.
  - simpl. unfold mret. rewrite !app_nil_r. by destruct w.
  - rewrite fmap_cons. simpl for_each.
    erewrite mbind_ok by apply chat_step_exact.
    rewrite IH. simpl. by rewrite <- !(assoc_L (++)).
Qed.

(** With [n = 1] the buffer is empty again after every chunk, so the loop
    hands an empty buffer to the code after it. *)
Lemma chat_loop_exact (tokens : list string) (fail : option exn) (w : world) :
  buffered_loop chat_token join
    (yielding ((λ t, [Some t]) <$> tokens) fail) w
  = (match fail with None => ok [] | Some e => throw e end,
     {| sink := sink w ++ streamed tokens;
        log := log w ++ streamed_log tokens;
        calls := calls w |}).
Proof.
  unfold buffered_loop, for_stream, yielding. simpl.
  erewrite mbind_ok by apply chat_for_each_exact.
  by destruct fail.
Qed.

Lemma openai_dispatch_exact (tokens : list string) (fail : option exn)
    (w : world) :
  _prompt (provider_yielding tokens fail) (user_request "OpenAI") w
  = {| sink := sink w ++ streamed tokens;
       log := log w ++ streamed_log tokens ++ error_log fail;
       calls := calls w
         ++ [OpenAIChatCompletions "cohere.command-text-v14"
               [{| om_role := "user"; om_content := [TextBlock "hi"] |}]
               1 0 64] |}.
Proof.
  unfold _prompt.
  change (_prompt_body (provider_yielding tokens fail) (user_request "OpenAI"))
    with (openai_branch (provider_yielding tokens fail) (user_request "OpenAI")).
  unfold openai_branch.
  erewrite mbind_ok by reflexivity.
  erewrite mbind_ok by reflexivity.
  unfold mbind. rewrite chat_loop_exact.
  destruct fail as [e |]; simpl.
  - rewrite <- (assoc_L (++)). reflexivity.
  - rewrite (app_nil_r (streamed_log tokens)). reflexivity.
Qed.

Lemma groq_dispatch_exact (tokens : list string) (fail : option exn)
    (w : world) :
  _prompt (provider_yielding tokens fail) (user_request "Groq") w
  = {| sink := sink w ++ streamed tokens;
       log := log w ++ streamed_log tokens ++ error_log fail;
       calls := calls w
         ++ [GroqChatCompletions [user_message "hi"]
               "cohere.command-text-v14" 1 64 1 0] |}.
Proof.
  unfold _prompt.
  change (_prompt_body (provider_yielding tokens fail) (user_request "Groq"))
    with (groq_branch (provider_yielding tokens fail) (user_request "Groq")).
  unfold groq_branch.
  erewrite mbind_ok by reflexivity.
  unfold mbind. rewrite chat_loop_exact.
  destruct fail as [e |]; simpl.
  - rewrite <- (assoc_L (++)). reflexivity.
  - rewrite (app_nil_r (streamed_log tokens)). reflexivity.
Qed.

Lemma streaming_not_terminated (sends : list send_event) :
  Forall streaming sends → well_terminated sends = false.
Proof.
  induction 1 as [| s rest Hs _ IH]; [done |].
  simpl. rewrite Hs, IH. by destruct rest.
Qed.

(** The branches that end in [close_stream] do close a stream of three
    chunks. *)
Lemma closing_branches_close (a b c : string) :
  ∀ p, p ∈ ["Anthropic"; "Gemini"] →
    sink (_prompt (provider_yielding [a; b; c] None) (user_request p)
            empty_world)
    = streamed [a; b; c] ++ [terminator].
Proof.
  intros p Hp. repeat (apply elem_of_cons in Hp as [-> | Hp]; [reflexivity |]).
  by apply elem_of_nil in Hp.
Qed.

(** They also close a stream of no chunk at all. *)
Lemma closing_branches_close_empty :
  ∀ p, p ∈ ["AnthropicBedrock"; "Anthropic"; "Gemini"] →
    sink (_prompt (provider_yielding [] None) (user_request p) empty_world)
    = [terminator].
Proof.
  intros p Hp. repeat (apply elem_of_cons in Hp as [-> | Hp]; [reflexivity |]).
  by apply elem_of_nil in Hp.
Qed.

(** C1 (what the code does). Against a provider that yields the chunks
    [a, b, c], the OpenAI branch and the Groq branch make the three
    [more_body=True] sends and stop there: with [n = 1] the buffer is empty
    after the loop, so the [more_body=False] send of the OpenAI branch is
    never reached, and the Groq branch has none. *)
Theorem C1_buffered_branches_leave_stream_open (a b c : string) :
  let run p := _prompt (provider_yielding [a; b; c] None) (user_request p)
                 empty_world in
  sink (run "OpenAI")
  = [{| body := a; more_body := true |}; {| body := b; more_body := true |};
     {| body := c; more_body := true |}]
  ∧ sink (run "Groq") = sink (run "OpenAI")
  ∧ well_terminated (sink (run "OpenAI")) = false
  ∧ well_terminated (sink (run "Groq")) = false.
Proof.
  intros run. subst run. cbv beta.
  rewrite openai_dispatch_exact, groq_dispatch_exact. simpl.
  split_and!; reflexivity.
Qed.

(** C7 (what the code does). Against a provider that yields no chunk, the
    OpenAI branch and the Groq branch send nothing at all. *)
Theorem C7_no_chunk_no_send (w : world) :
  sink (_prompt (provider_yielding [] None) (user_request "OpenAI") w) = sink w
  ∧ sink (_prompt (provider_yielding [] None) (user_request "Groq") w) = sink w
  ∧ sink (_prompt (provider_yielding [] None) (user_request "OpenAI")
            empty_world) = [].
Proof.
  rewrite !openai_dispatch_exact, groq_dispatch_exact. simpl.
  by rewrite app_nil_r.
Qed.

(** C2, refuted as stated: the Anthropic stream raises after the chunk "a";
    the sink has observed that chunk and no closing send. *)
Lemma C2_counterexample :
  let w := _prompt (provider_yielding ["a"] (Some (UpstreamError "reset")))
             (user_request "Anthropic") empty_world in
  sink w = [{| body := "a"; more_body := true |}]
  ∧ well_terminated (sink w) = false
  ∧ last (log w) = Some (LogException "error in _prompt " (UpstreamError "reset")).
Proof. cbv zeta. split_and!; reflexivity. Qed.

(** When the body of a dispatch raises, at whatever point, [_prompt]
    catches the exception and logs it, and sends nothing more. *)
Lemma raise_is_caught (up : upstream) (syn : synapse) (w w' : world)
    (e : exn) :
  _prompt_body up syn w = (throw e, w') →
  _prompt up syn w
  = {| sink := sink w';
       log := log w' ++ [LogException "error in _prompt " e];
       calls := calls w' |}
  ∧ ∃ sends, sink w' = sink w ++ sends ∧ Forall streaming sends.
Proof.
  intros Hraise. split.
  - unfold _prompt. by rewrite Hraise.
  - by apply (open_on_raise_prompt_body up syn w e w').
Qed.

(** ** A chunk sequence that raises makes the dispatch raise *)

Lemma raises_bind_l {A B} (m : M A) (k : A → M B) :
  raises m → raises (mbind m k).
Proof.
  intros Hm w. destruct (Hm w) as (e & w' & Hrun).
  exists e, w'. by apply mbind_throw.
Qed.

Lemma raises_bind_r {A B} (m : M A) (k : A → M B) :
  (∀ a, raises (k a)) → raises (mbind m k).
Proof.
  intros Hk w. destruct (m w) as [[e | a] w1] eqn:Hrun.
  - exists e, w1. by apply mbind_throw.
  - destruct (Hk a w1) as (e & w' & Hrest). exists e, w'.
    by rewrite (mbind_ok _ _ _ _ _ Hrun).
Qed.

Lemma raises_call {R B} (client : upstream_call → result R)
    (c : upstream_call) (k : R → M B) :
  (∀ r, client c = inr r → raises (k r)) → raises (mbind (call client c) k).
Proof.
  intros Hk w. unfold mbind, call.
  destruct (client c) as [e | r] eqn:Hanswer; [by eexists _, _ |].
  apply (Hk r eq_refl).
Qed.

Lemma raises_for_stream {C St} (s : stream C) (body : St → C → M St)
    (st : St) :
  is_Some (failure s) → raises (for_stream s body st).
Proof.
  intros [e Hfail]. unfold for_stream. apply raises_bind_r.
  intros st' w. rewrite Hfail. by eexists _, _.
Qed.

Lemma failing_stream_raises (up : upstream) (syn : synapse) :
  streams_raise up → drives_stream syn → raises (_prompt_body up syn).
Proof.
  intros (Hopenai & Hab & Hanthropic & Hgemini & Hgroq & Hbedrock)
    [Hknown Hstream].
  unfold _prompt_body.
  destruct (String.eqb (provider syn) "OpenAI") eqn:H1.
  { unfold openai_branch. apply raises_bind_r. intros fm.
    apply raises_call. intros response Hanswer.
    apply raises_bind_l, raises_for_stream. by eapply Hopenai. }
  destruct (String.eqb (provider syn) "AnthropicBedrock") eqn:H2.
  { unfold anthropic_bedrock_branch.
    apply raises_call. intros stream Hanswer.
    apply raises_bind_l, raises_for_stream. by eapply Hab. }
  destruct (String.eqb (provider syn) "Anthropic") eqn:H3.
  { unfold anthropic_branch. apply raises_bind_r. intros [fm sp].
    apply raises_call. intros stream Hanswer.
    apply raises_bind_l, raises_for_stream. by eapply Hanthropic. }
  destruct (String.eqb (provider syn) "Gemini") eqn:H4.
  { unfold gemini_branch.
    apply raises_call. intros stream Hanswer.
    apply raises_bind_l, raises_for_stream. by eapply Hgemini. }
  destruct (String.eqb (provider syn) "Groq") eqn:H5.
  { unfold groq_branch.
    apply raises_call. intros stream Hanswer.
    apply raises_bind_l, raises_for_stream. by eapply Hgroq. }
  destruct (String.eqb (provider syn) "Bedrock") eqn:H6.
  { unfold bedrock_branch. apply raises_bind_r. intros request.
    destruct (startswith "ai21" (model syn)) eqn:Hai21.
    - exfalso. apply Hstream. split; [by apply String.eqb_eq | done].
    - apply raises_call. intros stream Hanswer.
      apply raises_bind_l, raises_for_stream. by eapply Hbedrock. }
  exfalso. apply String.eqb_neq in H1, H2, H3, H4, H5, H6.
  unfold known_providers in Hknown. rewrite !elem_of_cons in Hknown.
  rewrite elem_of_nil in Hknown.
  destruct Hknown as [? | [? | [? | [? | [? | [? | []]]]]]]; done.
Qed.

(** C2, amended. When the chunk sequence of the provider raises, the
    dispatch ends in the [except] clause of [_prompt]: an exception is
    logged, none propagates, and nothing more is sent.  The sink has
    observed the sends made before the error, all of them with
    [more_body=True], and no closing send. *)
Theorem C2_raise_leaves_stream_open (up : upstream) (syn : synapse)
    (w : world) :
  streams_raise up → drives_stream syn →
  ∃ e sends,
    sink (_prompt up syn w) = sink w ++ sends
    ∧ Forall (λ s, more_body s = true) sends
    ∧ well_terminated sends = false
    ∧ last (log (_prompt up syn w))
      = Some (LogException "error in _prompt " e).
Proof.
  intros Hup Hsyn.
  destruct (failing_stream_raises up syn Hup Hsyn w) as (e & w' & Hraise).
  destruct (raise_is_caught up syn w w' e Hraise)
    as (-> & sends & Hsink & Hall).
  exists e, sends. simpl. split_and!; [done | done | |].
  - by apply streaming_not_terminated.
  - apply last_snoc.
Qed.

Lemma fixture_streams_raise (tokens : list string) (e : exn) :
  streams_raise (provider_yielding tokens (Some e)).
Proof.
  unfold streams_raise, ends_raising. simpl.
  split_and!; intros c s [= <-]; by eexists.
Defined.

Lemma fixture_drives_stream :
  drives_stream (user_request "Anthropic").
Proof.
  split.
  - unfold known_providers. simpl. rewrite !elem_of_cons. tauto.
  - intros [[=] _].
Defined.

(** The Anthropic stream raises after the chunk "a". *)
Lemma C2_raise_leaves_stream_open_witness :
  let up := provider_yielding ["a"] (Some (UpstreamError "reset")) in
  let syn := user_request "Anthropic" in
  streams_raise up ∧ drives_stream syn
  ∧ sink (_prompt up syn empty_world) = [{| body := "a"; more_body := true |}]
  ∧ ∃ e sends,
      sink (_prompt up syn empty_world) = sink empty_world ++ sends
      ∧ Forall (λ s, more_body s = true) sends
      ∧ well_terminated sends = false
      ∧ last (log (_prompt up syn empty_world))
        = Some (LogException "error in _prompt " e).
Proof.
  cbv zeta.
  split; [apply fixture_streams_raise |].
  split; [apply fixture_drives_stream |].
  split; [reflexivity |].
  exact (C2_raise_leaves_stream_open
           (provider_yielding ["a"] (Some (UpstreamError "reset")))
           (user_request "Anthropic") empty_world
           (fixture_streams_raise ["a"] (UpstreamError "reset"))
           fixture_drives_stream).
Defined.

(** C9, refuted as stated: for an unknown provider the sink observes no
    send, hence no closing send either. *)
Lemma C9_counterexample :
  let w := _prompt (provider_yielding ["a"] None) (user_request "Mistral")
             empty_world in
  sink w = [] ∧ sink w ≠ [terminator] ∧ well_terminated (sink w) = false.
Proof. cbv zeta. split_and!; [reflexivity | discriminate | reflexivity]. Qed.

(** C9, amended. For a provider name that is none of the six the
    dispatcher knows, [_prompt] logs the unknown-provider error and does
    nothing else: no send reaches the sink, a closing send included, and
    no upstream call is made. *)
Theorem C9_unknown_provider_only_logs (up : upstream) (syn : synapse)
    (w : world) :
  provider syn ∉ known_providers →
  _prompt up syn w
  = {| sink := sink w;
       log := log w ++ [LogError ("Unknown provider: " +:+ provider syn)];
       calls := calls w |}.
Proof.
  unfold known_providers. rewrite !not_elem_of_cons.
  intros (H1 & H2 & H3 & H4 & H5 & H6 & _).
  apply String.eqb_neq in H1, H2, H3, H4, H5, H6.
  unfold _prompt, _prompt_body.
  by rewrite H1, H2, H3, H4, H5, H6.
Qed.

Lemma C9_unknown_provider_only_logs_witness :
  ("Mistral" ∉ known_providers)
  ∧ _prompt (provider_yielding ["a"] None) (user_request "Mistral")
      empty_world
    = {| sink := []; log := [LogError "Unknown provider: Mistral"];
         calls := [] |}.
Proof.
  assert (Hunknown : "Mistral" ∉ known_providers).
  { unfold known_providers. rewrite !not_elem_of_cons.
    split_and!; [discriminate .. | apply not_elem_of_nil]. }
  split; [exact Hunknown |].
  exact (C9_unknown_provider_only_logs (provider_yielding ["a"] None)
           (user_request "Mistral") empty_world Hunknown).
Defined.

(** ** Which computations call upstream *)

Lemma no_call_mret {A} (a : A) : no_call (mret a).
Proof. by intros w r w' [= <- <-]. Qed.

Lemma no_call_raise {A} (e : exn) : no_call (@raise A e).
Proof. by intros w r w' [= <- <-]. Qed.

Lemma no_call_lift {A} (r : result A) : no_call (lift r).
Proof. by intros w r' w' [= <- <-]. Qed.

Lemma no_call_logging (entry : log_entry) : no_call (logging entry).
Proof. by intros w r w' [= <- <-]. Qed.

Lemma no_call_send (b : string) (more : bool) : no_call (send b more).
Proof. by intros w r w' [= <- <-]. Qed.

Lemma no_call_bind {A B} (m : M A) (k : A → M B) :
  no_call m → (∀ a, no_call (k a)) → no_call (mbind m k).
Proof.
  intros Hm Hk w r w' Hrun. unfold mbind in Hrun.
  destruct (m w) as [[e | a] w1] eqn:Hmw.
  - injection Hrun as <- <-. by eapply Hm.
  - rewrite (Hk a _ _ _ Hrun). by eapply Hm.
Qed.

#[local] Hint Resolve no_call_mret no_call_raise no_call_lift no_call_logging
  no_call_send no_call_bind : dispatch.

Lemma no_call_for_each {C St} (body : St → C → M St) (xs : list C) :
  (∀ st x, no_call (body st x)) → ∀ st, no_call (for_each body xs st).
Proof.
  intros Hbody. induction xs as [| x xs IH]; intros st; simpl;
    eauto with dispatch.
Qed.

Lemma no_call_buffered_loop {C T} (token_of : C → result T)
    (join_tokens : list T → result string) (s : stream C) :
  no_call (buffered_loop token_of join_tokens s).
Proof.
  unfold buffered_loop, for_stream. apply no_call_bind.
  - apply no_call_for_each. intros buffer chunk. unfold buffered_step.
    apply no_call_bind; [eauto with dispatch |]. intros token.
    destruct (Nat.eqb _ _); eauto 10 with dispatch.
  - intros st. destruct (failure s); eauto with dispatch.
Qed.

Lemma no_call_final_flush {T} (join_tokens : list T → result string)
    (buffer : list T) : no_call (final_flush join_tokens buffer).
Proof. destruct buffer; simpl; eauto 10 with dispatch. Qed.

(** The handler adds a log line at most: sink and calls are those of the
    body. *)
Lemma prompt_calls (up : upstream) (syn : synapse) (w : world) :
  calls (_prompt up syn w) = calls (snd (_prompt_body up syn w)).
Proof. unfold _prompt. by destruct (_prompt_body up syn w) as [[e | []] w']. Qed.

Lemma openai_branch_calls (up : upstream) (syn : synapse)
    (filtered_messages : list out_message) (w : world) :
  openai_messages (messages syn) = ok filtered_messages →
  calls (snd (openai_branch up syn w))
  = calls w ++ [OpenAIChatCompletions (model syn) filtered_messages
                  (temperature syn) (seed syn) (max_tokens syn)].
Proof.
  intros Hmessages. unfold openai_branch.
  erewrite mbind_ok by (unfold lift; rewrite Hmessages; reflexivity).
  unfold mbind at 1, call at 1.
  destruct (openai_client up _) as [e | response]; [done |].
  match goal with
  | |- calls (snd (?rest ?w1)) = _ =>
      destruct (rest w1) as [r w2] eqn:Hrest
  end.
  simpl. eapply (no_call_bind _ _) in Hrest; [done | |].
  - apply no_call_buffered_loop.
  - intros buffer. apply no_call_final_flush.
Qed.

(** C10. On the OpenAI branch the request sent upstream carries one
    message, the translation of [messages[0]]; the messages after it play
    no part in the dispatch whatever their role or content. *)
Theorem C10_openai_sends_first_message_only (up : upstream) (syn : synapse)
    (message : gmap string string) (rest : list (gmap string string))
    (w : world) :
  provider syn = "OpenAI" →
  messages syn = message :: rest →
  _prompt up syn w = _prompt up (with_messages syn [message]) w
  ∧ ∀ role, message !! "role" = Some role →
      calls (_prompt up syn w)
      = calls w
        ++ [OpenAIChatCompletions (model syn)
              [{| om_role := role;
                  om_content :=
                    (if opt_truthy (message !! "content")
                     then [TextBlock (default "" (message !! "content"))]
                     else [])
                    ++ (if opt_truthy (message !! "image")
                        then [ImageUrlBlock (default "" (message !! "image"))]
                        else []) |}]
              (temperature syn) (seed syn) (max_tokens syn)].
Proof.
  intros Hprovider Hmessages.
  assert (Hbody : ∀ s, provider s = "OpenAI" →
            _prompt_body up s = openai_branch up s).
  { intros s Hs. unfold _prompt_body. by rewrite Hs. }
  split.
  - unfold _prompt. rewrite !Hbody by done.
    unfold openai_branch. simpl. by rewrite Hmessages.
  - intros role Hrole. rewrite prompt_calls, Hbody by done.
    apply openai_branch_calls. rewrite Hmessages.
    unfold openai_messages, first_message, getitem. simpl.
    by rewrite Hrole.
Qed.

Lemma C10_openai_sends_first_message_only_witness :
  let syn := request_with "OpenAI"
               [user_message "hi"; system_message "be brief";
                user_message "and then?"] in
  (provider syn = "OpenAI"
   ∧ messages syn = user_message "hi"
                    :: [system_message "be brief"; user_message "and then?"])
  ∧ calls (_prompt (provider_yielding ["a"] None) syn empty_world)
    = [OpenAIChatCompletions "cohere.command-text-v14"
         [{| om_role := "user"; om_content := [TextBlock "hi"] |}] 1 0 64].
Proof.
  cbv zeta. split; [split; reflexivity |].
  exact (proj2 (C10_openai_sends_first_message_only
                  (provider_yielding ["a"] None)
                  (request_with "OpenAI"
                     [user_message "hi"; system_message "be brief";
                      user_message "and then?"])
                  (user_message "hi")
                  [system_message "be brief"; user_message "and then?"]
                  empty_world eq_refl eq_refl) "user" eq_refl).
Defined.

(** ** System-prompt extraction *)

(** The loop invariant of [generate_messages_to_claude]: [system_prompt]
    holds the content of the last system message seen so far, and
    [filtered_messages] grows by one entry per message of another role. *)
Lemma claude_loop_spec (up : upstream) (messages : list (gmap string string)) :
  ∀ system_prompt acc filtered system_prompt',
    claude_loop up messages system_prompt acc
    = ok (filtered, system_prompt') →
    system_prompt' = match last (system_contents messages) with
                     | Some content => Some content
                     | None => system_prompt
                     end
    ∧ ∃ new, filtered = acc ++ new
             ∧ om_role <$> new = regular_roles messages.
Proof.
  induction messages as [| message rest IH];
    intros system_prompt acc filtered system_prompt' Hrun.
  - injection Hrun as <- <-. split; [done |].
    exists []. by rewrite app_nil_r.
  - simpl in Hrun. unfold getitem in Hrun.
    unfold system_contents, regular_roles. simpl omap.
    unfold system_content at 1, regular_role at 1.
    destruct (message !! "role") as [role |] eqn:Hrole; [| done].
    simpl in Hrun. destruct (String.eqb role "system") eqn:Hsystem.
    + destruct (message !! "content") as [content |] eqn:Hcontent; [| done].
      simpl in Hrun. apply IH in Hrun as (-> & new & -> & Hroles).
      split; [| by exists new].
      rewrite last_cons. unfold system_contents, omap.
      by destruct (last _).
    + assert (Hstep : ∀ blocks,
                claude_loop up rest system_prompt
                  (acc ++ [{| om_role := role; om_content := blocks |}])
                = ok (filtered, system_prompt') →
                system_prompt' = match last (system_contents rest) with
                                 | Some content => Some content
                                 | None => system_prompt
                                 end
                ∧ ∃ new, filtered = acc ++ new
                         ∧ om_role <$> new = role :: regular_roles rest).
      { intros blocks Hrest.
        apply IH in Hrest as (-> & new & -> & Hroles). split; [done |].
        exists ({| om_role := role; om_content := blocks |} :: new).
        rewrite <- (assoc_L (++)). split; [done |].
        rewrite fmap_cons. simpl. by rewrite Hroles. }
      destruct (opt_truthy (message !! "image")).
      * simpl in Hrun. destruct (httpx_get up _) as [e | raw]; [done |].
        simpl in Hrun. by apply Hstep in Hrun.
      * simpl in Hrun. by apply Hstep in Hrun.
Qed.

(** C4, refuted as stated: of two system messages the second one becomes
    the system prompt, and neither stays in the translated list. *)
Lemma C4_counterexample :
  generate_messages_to_claude (provider_yielding [] None)
    [system_message "A"; system_message "B"; user_message "hi"]
  = ok ([{| om_role := "user"; om_content := [TextBlock "hi"] |}], Some "B")
  ∧ ¬ ∃ filtered,
        generate_messages_to_claude (provider_yielding [] None)
          [system_message "A"; system_message "B"; user_message "hi"]
        = ok (filtered, Some "A")
        ∧ ∃ m, m ∈ filtered ∧ om_content m = [TextBlock "B"].
Proof.
  split; [reflexivity |].
  intros (filtered & Hrun & _). vm_compute in Hrun. discriminate Hrun.
Qed.

(** C4, amended. When the translation for the system-prompt-extracting
    variant returns, at most one system message is honored, the last one
    of the list: its content is the system prompt.  No system message,
    first or later, stays in the translated list, which holds the messages
    of the other roles in their order. *)
Theorem C4_last_system_message_is_honored (up : upstream)
    (messages : list (gmap string string)) (filtered : list out_message)
    (system_prompt : option string) :
  generate_messages_to_claude up messages = ok (filtered, system_prompt) →
  system_prompt = last (system_contents messages)
  ∧ om_role <$> filtered = regular_roles messages
  ∧ Forall (λ m, om_role m ≠ "system") filtered.
Proof.
  intros Hrun. apply claude_loop_spec in Hrun as (-> & new & -> & Hroles).
  simpl app. split_and!; [by destruct (last _) | done |].
  apply Forall_fmap with (f := om_role) (P := λ r, r ≠ "system").
  rewrite Hroles. unfold regular_roles. apply Forall_forall.
  intros role (message & _ & Hregular)%list_elem_of_omap.
  unfold regular_role in Hregular.
  destruct (message !! "role") as [r |]; [| done].
  destruct (String.eqb r "system") eqn:Hsystem; [done |].
  injection Hregular as <-. by apply String.eqb_neq.
Qed.

Lemma C4_last_system_message_is_honored_witness :
  let msgs := [system_message "A"; user_message "hi"; system_message "B";
               user_message "more"] in
  generate_messages_to_claude (provider_yielding [] None) msgs
  = ok ([{| om_role := "user"; om_content := [TextBlock "hi"] |};
         {| om_role := "user"; om_content := [TextBlock "more"] |}],
        Some "B")
  ∧ Some "B" = last (system_contents msgs)
  ∧ ["user"; "user"] = regular_roles msgs.
Proof.
  cbv zeta. split; [reflexivity |].
  destruct (C4_last_system_message_is_honored (provider_yielding [] None)
              [system_message "A"; user_message "hi"; system_message "B";
               user_message "more"]
              _ _ eq_refl) as (Hsystem & Hroles & _).
  split; [exact Hsystem | exact Hroles].
Defined.

End DispatchFacts.

(** * Properties of the embedding batcher *)

Module EmbeddingFacts.
Import Embedding.

(** ** Slicing *)

Lemma concat_slices {A} (l : list A) (b k : nat) :
  concat ((λ i, take b (drop (i * b) l)) <$> seq 0 k) = take (k * b) l.
Proof.
  induction k as [| k IH]; [done |].
  rewrite seq_S, fmap_app, concat_app, IH. simpl.
  rewrite app_nil_r, take_take_drop. f_equal. lia.
Qed.

Lemma slice_at {A} (l : list A) (k : nat) (batch_size : Z) :
  0 < batch_size →
  slice l (Z.of_nat k * batch_size) (Z.of_nat k * batch_size + batch_size)
  = take (Z.to_nat batch_size) (drop (k * Z.to_nat batch_size) l).
Proof.
  intros Hpos. unfold slice. f_equal; [f_equal; lia | f_equal; nia].
Qed.

(** The number of slices covers the list, and every slice starts inside
    it. *)
Lemma slice_count_covers (len batch_size : Z) :
  0 <= len → 0 < batch_size →
  len <= (len + batch_size - 1) / batch_size * batch_size.
Proof.
  intros Hlen Hpos.
  pose proof (Z.div_mod (len + batch_size - 1) batch_size ltac:(lia)).
  pose proof (Z.mod_pos_bound (len + batch_size - 1) batch_size Hpos).
  nia.
Qed.

Lemma slice_start_inside (len batch_size k : Z) :
  0 <= len → 0 < batch_size →
  k < (len + batch_size - 1) / batch_size →
  k * batch_size < len.
Proof.
  intros Hlen Hpos Hk.
  pose proof (Z.div_mod (len + batch_size - 1) batch_size ltac:(lia)).
  pose proof (Z.mod_pos_bound (len + batch_size - 1) batch_size Hpos).
  nia.
Qed.

(** For a positive batch size the comprehension cuts the list into
    consecutive, non-empty slices of at most [batch_size] texts. *)
Lemma batches_of_spec (texts : list string) (batch_size : Z) :
  0 < batch_size →
  ∃ batches, batches_of texts batch_size = ok batches
             ∧ concat batches = texts
             ∧ Forall (λ batch, batch ≠ []
                                ∧ Z.of_nat (length batch) <= batch_size)
                 batches.
Proof.
  intros Hpos. unfold batches_of, py_range.
  rewrite !bool_decide_false by lia. simpl.
  set (len := Z.of_nat (length texts)).
  set (count := Z.to_nat ((len + batch_size - 1) / batch_size)).
  eexists. split; [reflexivity |].
  rewrite <- list_fmap_compose.
  assert (Hcount : 0 <= (len + batch_size - 1) / batch_size).
  { apply Z.div_pos; lia. }
  split.
  - erewrite (list_fmap_ext _ (λ k, take (Z.to_nat batch_size)
                                 (drop (k * Z.to_nat batch_size) texts))).
    2: { intros i k _. simpl. by apply slice_at. }
    rewrite concat_slices. apply take_ge.
    pose proof (slice_count_covers len batch_size ltac:(lia) Hpos).
    subst count len. nia.
  - apply Forall_fmap, Forall_forall. intros k Hk%elem_of_seq. simpl.
    rewrite slice_at by done.
    pose proof (slice_start_inside len batch_size (Z.of_nat k)
                  ltac:(lia) Hpos ltac:(lia)) as Hstart.
    split.
    + intros Hnil. apply (f_equal length) in Hnil.
      rewrite length_take, length_drop in Hnil. simpl in Hnil.
      subst len. nia.
    + rewrite length_take. lia.
Qed.

(** ** The two loops *)

Lemma make_tasks_spec (batches : list (list string)) :
  fst (make_tasks batches) = List.filter is_cons (filtered_batch <$> batches)
  ∧ Forall (λ entry, is_exception_entry entry = false)
      (snd (make_tasks batches)).
Proof.
  induction batches as [| batch rest [IHtasks IHlog]]; [done |].
  simpl. destruct (make_tasks rest) as [tasks lg]. simpl in *.
  destruct (filtered_batch batch); simpl; split; auto.
  by subst tasks.
Qed.

Lemma concat_filter_is_cons {A} (ls : list (list A)) :
  concat (List.filter is_cons ls) = concat ls.
Proof.
  induction ls as [| l ls IH]; [done |]. simpl.
  destruct l; simpl; by rewrite IH.
Qed.

Lemma concat_filtered (batches : list (list string)) :
  concat (filtered_batch <$> batches) = filtered_batch (concat batches).
Proof.
  induction batches as [| batch rest IH]; [done |]. csimpl.
  rewrite IH. unfold filtered_batch. by rewrite List.filter_app.
Qed.

Lemma filtered_batch_length (batch : list string) :
  (length (filtered_batch batch) ≤ length batch)%nat.
Proof. apply List.filter_length_le. Qed.

Lemma collect_spec (client : embeddings_client) (model : string)
    (tasks : list (list string)) :
  ∀ acc,
    collect (gather client model tasks) acc
    = (acc ++ concat (successes client model tasks),
       LogException "Error in processing batch: "
         <$> failures client model tasks).
Proof.
  unfold gather, successes, failures.
  induction tasks as [| input rest IH]; intros acc; simpl.
  - by rewrite app_nil_r.
  - destruct (client input model) as [e | data]; simpl.
    + by rewrite IH.
    + by rewrite IH, <- (assoc_L (++)).
Qed.

(** C3, refuted as stated: on the example of the claim the batches sent
    upstream are [["x"], ["y"], ["z"]], not the partition
    [["x", "y"], ["z"]] of the filtered list. *)
Lemma C3_counterexample :
  get_embeddings_in_batch example_client example_texts "m" 2
  = ok {| issued := [["x"]; ["y"]; ["z"]];
          returned := [[inject_Z 121]; [inject_Z 122]];
          log := [LogException "Error in processing batch: "
                    (UpstreamError "rate limited")] |}
  ∧ filter_then_partition example_texts 2 = ok [["x"; "y"]; ["z"]]
  ∧ ¬ ∃ r, get_embeddings_in_batch example_client example_texts "m" 2 = ok r
           ∧ ok (issued r) = filter_then_partition example_texts 2.
Proof.
  split_and!; [reflexivity | reflexivity |].
  intros (r & Hrun & Hissued). vm_compute in Hrun.
  injection Hrun as <-. vm_compute in Hissued. discriminate Hissued.
Qed.

(** C3, amended. For a positive batch size the batcher first cuts the
    text list as given into consecutive slices of at most [batch_size]
    texts, and then filters each slice: empty and whitespace-only texts
    are dropped, and a slice left empty is skipped.  The batches sent
    upstream are therefore non-empty, hold at most [batch_size] texts
    each, and put end to end are the surviving texts in their original
    order. *)
Theorem C3_partition_then_filter (client : embeddings_client)
    (texts : list string) (model : string) (batch_size : Z) :
  0 < batch_size →
  ∃ batches r,
    batches_of texts batch_size = ok batches
    ∧ get_embeddings_in_batch client texts model batch_size = ok r
    ∧ concat batches = texts
    ∧ Forall (λ batch, batch ≠ [] ∧ Z.of_nat (length batch) <= batch_size)
        batches
    ∧ issued r = List.filter is_cons (filtered_batch <$> batches)
    ∧ concat (issued r) = filtered_batch texts
    ∧ Forall (λ batch, batch ≠ [] ∧ Z.of_nat (length batch) <= batch_size)
        (issued r).
Proof.
  intros Hpos.
  destruct (batches_of_spec texts batch_size Hpos)
    as (batches & Hbatches & Hconcat & Hsizes).
  destruct (make_tasks_spec batches) as [Htasks _].
  unfold get_embeddings_in_batch. rewrite Hbatches. simpl.
  destruct (make_tasks batches) as [tasks skipped]. simpl in Htasks.
  destruct (collect (gather client model tasks) []) as [out errors].
  eexists batches, _. split_and!; [done | reflexivity | done | done | ..];
    simpl.
  - done.
  - by rewrite Htasks, concat_filter_is_cons, concat_filtered, Hconcat.
  - rewrite Htasks. apply Forall_forall.
    intros task [Htask Hcons]%list_elem_of_In%List.filter_In.
    split; [by destruct task |].
    apply list_elem_of_In, list_elem_of_fmap in Htask
      as (batch & -> & Hbatch).
    rewrite Forall_forall in Hsizes. destruct (Hsizes batch Hbatch) as [_ Hle].
    pose proof (filtered_batch_length batch). lia.
Qed.

Lemma C3_partition_then_filter_witness :
  0 < 2
  ∧ ∃ batches r,
      batches_of example_texts 2 = ok batches
      ∧ get_embeddings_in_batch example_client example_texts "m" 2 = ok r
      ∧ concat batches = example_texts
      ∧ Forall (λ batch, batch ≠ [] ∧ Z.of_nat (length batch) <= 2) batches
      ∧ issued r = List.filter is_cons (filtered_batch <$> batches)
      ∧ concat (issued r) = filtered_batch example_texts
      ∧ Forall (λ batch, batch ≠ [] ∧ Z.of_nat (length batch) <= 2)
          (issued r).
Proof.
  split; [lia |].
  exact (C3_partition_then_filter example_client example_texts "m" 2
           ltac:(lia)).
Defined.

(** C8. Whatever batches fail, the value returned is the concatenation,
    in batch order, of the vectors of the batches whose call succeeded,
    each batch's vectors in the order of its response; a failed batch
    contributes no vector and one error line, and the batches sent
    upstream do not depend on any call's outcome. *)
Theorem C8_failed_batches_are_skipped (client : embeddings_client)
    (texts : list string) (model : string) (batch_size : Z) (r : run) :
  get_embeddings_in_batch client texts model batch_size = ok r →
  returned r = concat (successes client model (issued r))
  ∧ List.filter is_exception_entry (log r)
    = LogException "Error in processing batch: "
        <$> failures client model (issued r)
  ∧ ∀ client' r',
      get_embeddings_in_batch client' texts model batch_size = ok r' →
      issued r' = issued r.
Proof.
  unfold get_embeddings_in_batch.
  destruct (batches_of texts batch_size) as [e | batches]; [done |]. simpl.
  destruct (make_tasks_spec batches) as [_ Hskipped].
  destruct (make_tasks batches) as [tasks skipped]. simpl in Hskipped.
  rewrite collect_spec. intros [= <-]. simpl. split_and!.
  - done.
  - rewrite List.filter_app.
    replace (List.filter is_exception_entry skipped) with (@nil log_entry).
    + simpl. induction (failures client model tasks) as [| e es IH]; [done |].
      csimpl. by rewrite IH.
    + clear -Hskipped. induction Hskipped as [| entry rest Hentry _ IH];
        [done |]. simpl. by rewrite Hentry.
  - intros client' r'. rewrite collect_spec. by intros [= <-].
Qed.

(** The first batch fails, the other two succeed: the result is the
    vectors of "y" and "z". *)
Lemma C8_failed_batches_are_skipped_witness :
  let r := {| issued := [["x"]; ["y"]; ["z"]];
              returned := [[inject_Z 121]; [inject_Z 122]];
              log := [LogException "Error in processing batch: "
                        (UpstreamError "rate limited")] |} in
  get_embeddings_in_batch example_client example_texts "m" 2 = ok r
  ∧ returned r = concat (successes example_client "m" (issued r))
  ∧ successes example_client "m" (issued r)
    = [[[inject_Z 121]]; [[inject_Z 122]]].
Proof.
  cbv zeta. split; [reflexivity |].
  split; [| reflexivity].
  exact (proj1 (C8_failed_batches_are_skipped example_client example_texts
                  "m" 2 _ eq_refl)).
Defined.

End EmbeddingFacts.


(** * More properties of the admission gate *)

Module ServingFacts.
Import Admission Serving.

(** ** The pruning loop *)

Lemma prune_split (current_time time_window : Q) (dq : list Q) :
  ∃ dropped,
    dq = dropped ++ prune current_time time_window dq
    ∧ Forall (expired current_time time_window) dropped
    ∧ match prune current_time time_window dq with
      | [] => True
      | t :: _ => Qgtb (current_time - t) time_window = false
      end.
Proof.
  induction dq as [| t rest (dropped & Hsplit & Hdropped & Hhead)].
  - by exists [].
  - simpl. destruct (Qgtb (current_time - t) time_window) eqn:Hold.
    + exists (t :: dropped). split_and!; [by rewrite Hsplit at 1 | | done].
      by constructor.
    + exists []. by split_and!.
Qed.

(** X1. The pruning loop drops a prefix of expired timestamps and stops at
    the first timestamp that is not expired, whatever comes after it: the
    window left is a suffix of the old one whose head, if any, is inside
    the time window. *)
Theorem prune_drops_expired_head (current_time time_window : Q)
    (dq : list Q) :
  ∃ dropped,
    dq = dropped ++ prune current_time time_window dq
    ∧ Forall (expired current_time time_window) dropped
    ∧ match prune current_time time_window dq with
      | [] => True
      | t :: _ => Qgtb (current_time - t) time_window = false
      end.
Proof. apply prune_split. Qed.

Lemma prune_fresh (current_time time_window : Q) (dq : list Q) :
  Forall (λ t, Qgtb (current_time - t) time_window = false) dq →
  prune current_time time_window dq = dq.
Proof. destruct 1 as [| t rest Ht _]; simpl; [done | by rewrite Ht]. Qed.

Lemma prune_length (current_time time_window : Q) (dq : list Q) :
  (length (prune current_time time_window dq) ≤ length dq)%nat.
Proof.
  induction dq as [| t rest IH]; simpl; [done |].
  destruct (Qgtb _ _); simpl; lia.
Qed.

(** ** What a call does to the windows *)

(** The state a call leaves: untouched, or the caller's window replaced
    by its pruned version, with the current time appended on admission. *)
Lemma base_blacklist_cases (c : cortext_constants) (mg : metagraph)
    (m : miner) (syn : synapse) (blacklist_amt : Z) (current_time : Q) :
  let r := base_blacklist c mg m syn blacklist_amt current_time in
  request_timestamps (snd r) = request_timestamps m
  ∨ ∃ hotkey pruned,
      dendrite syn = Some hotkey
      ∧ pruned = prune current_time (inject_Z (MIN_REQUEST_PERIOD c * 60))
                   (window_of (request_timestamps m) hotkey)
      ∧ ((MAX_REQUESTS c <= Z.of_nat (length pruned)
          ∧ request_timestamps (snd r)
            = <[hotkey := pruned]> (request_timestamps m))
         ∨ (Z.of_nat (length pruned) < MAX_REQUESTS c
            ∧ request_timestamps (snd r)
              = <[hotkey := pruned ++ [current_time]]>
                  (request_timestamps m))).
Proof.
  cbv zeta. unfold base_blacklist.
  destruct (identity_and_stake c mg syn blacklist_amt)
    as [e | [d | hotkey]] eqn:Hgate; simpl; [by left | by left |].
  right. exists hotkey, (prune current_time
                           (inject_Z (MIN_REQUEST_PERIOD c * 60))
                           (window_of (request_timestamps m) hotkey)).
  assert (Hhotkey : dendrite syn = Some hotkey).
  { unfold identity_and_stake, rbind in Hgate.
    destruct (dendrite syn) as [h |]; [| done].
    repeat case_match; simplify_eq; done. }
  split_and!; [done | done |].
  unfold rate_check. case_bool_decide; simpl; [left | right]; split; [lia | done | lia | done].
Qed.

(** X2. Whatever the rate-window state, a caller that passes the
    registration check and whose stake is below the threshold of the
    request kind is rejected with the low-stake reason, which prints the
    stake as a float and the threshold as an integer, and the call
    changes nothing: no timestamp is recorded and no window is created
    or pruned. *)
Theorem low_stake_is_rejected (c : cortext_constants) (mg : metagraph)
    (m : miner) (syn : synapse) (blacklist_amt : Z) (current_time : Q)
    (hotkey : string) (i : nat) (stake : Q) :
  dendrite syn = Some hotkey →
  find_uid mg hotkey ≠ None ∨ ALLOW_NON_REGISTERED c = true →
  hotkeys_index mg hotkey = ok i →
  S mg !! i = Some stake →
  (stake < inject_Z blacklist_amt)%Q →
  base_blacklist c mg m syn blacklist_amt current_time
  = (Some (true, reason_low_stake (type_name syn) stake blacklist_amt hotkey),
     m).
Proof.
  intros Hhotkey Hregistered Hindex Hstake Hlow.
  unfold base_blacklist, identity_and_stake. rewrite Hhotkey. simpl.
  assert (Hgate : bool_decide (find_uid mg hotkey = None)
                  && negb (ALLOW_NON_REGISTERED c) = false).
  { destruct Hregistered as [Huid | ->].
    - by rewrite bool_decide_false.
    - by rewrite andb_false_r. }
  rewrite Hgate, Hindex. simpl. unfold stake_at. rewrite Hstake. simpl.
  assert (Hlt : Qltb stake (inject_Z blacklist_amt) = true).
  { unfold Qltb. apply negb_true_iff.
    destruct (Qle_bool (inject_Z blacklist_amt) stake) eqn:Hle; [| done].
    apply Qle_bool_iff in Hle. by apply Qle_not_lt in Hle. }
  by rewrite Hlt.
Qed.

Lemma low_stake_is_rejected_witness :
  base_blacklist example_constants example_metagraph busy_miner
    (request_from "hk2") 100 (inject_Z 1002)
  = (Some (true, "Blacklisted a low stake StreamPrompting request: 50.0 < 100 from hk2"),
     busy_miner).
Proof.
  exact (low_stake_is_rejected example_constants example_metagraph busy_miner
           (request_from "hk2") 100 (inject_Z 1002) "hk2" 1 (inject_Z 50)
           eq_refl (or_intror eq_refl) eq_refl eq_refl eq_refl).
Defined.

(** X3. When non-registered callers are not allowed, a caller whose hotkey is
    on no axon of the metagraph is rejected before any stake lookup, and
    the call changes nothing. *)
Theorem unregistered_is_rejected (c : cortext_constants) (mg : metagraph)
    (m : miner) (syn : synapse) (blacklist_amt : Z) (current_time : Q)
    (hotkey : string) :
  dendrite syn = Some hotkey →
  hotkey ∉ axons mg →
  ALLOW_NON_REGISTERED c = false →
  base_blacklist c mg m syn blacklist_amt current_time
  = (Some (true, reason_non_registered (type_name syn) hotkey), m).
Proof.
  intros Hhotkey Habsent Hpolicy.
  unfold base_blacklist, identity_and_stake. rewrite Hhotkey. simpl.
  assert (Huid : find_uid mg hotkey = None).
  { unfold find_uid.
    assert (Hnone : list_find (λ h, h = hotkey) (axons mg) = None).
    { apply list_find_None, Forall_forall. by intros h Hh ->. }
    by rewrite Hnone. }
  by rewrite Huid, Hpolicy.
Qed.

Lemma unregistered_is_rejected_witness :
  base_blacklist strict_constants example_metagraph busy_miner
    (request_from "hk3") 100 (inject_Z 1002)
  = (Some (true, "Blacklisted a non registered hotkey's StreamPrompting request from hk3"),
     busy_miner).
Proof.
  refine (unregistered_is_rejected strict_constants example_metagraph
            busy_miner (request_from "hk3") 100 (inject_Z 1002) "hk3"
            eq_refl _ eq_refl).
  simpl. rewrite !not_elem_of_cons.
  split_and!; [discriminate .. | apply not_elem_of_nil].
Defined.

(** X4. A call touches the window of its caller only. *)
Theorem other_windows_untouched (c : cortext_constants) (mg : metagraph)
    (m : miner) (syn : synapse) (blacklist_amt : Z) (current_time : Q)
    (other : string) :
  dendrite syn ≠ Some other →
  request_timestamps
    (snd (base_blacklist c mg m syn blacklist_amt current_time)) !! other
  = request_timestamps m !! other.
Proof.
  intros Hother.
  destruct (base_blacklist_cases c mg m syn blacklist_amt current_time)
    as [-> | (hotkey & pruned & Hhotkey & _ & [[_ ->] | [_ ->]])];
    [done | |]; apply lookup_insert_ne; congruence.
Qed.

Lemma other_windows_untouched_witness :
  request_timestamps
    (snd (base_blacklist example_constants example_metagraph busy_miner
            (request_from "hk2") 10 (inject_Z 1002))) !! "hk1"
  = Some [inject_Z 1000; inject_Z 1001].
Proof.
  exact (other_windows_untouched example_constants example_metagraph
           busy_miner (request_from "hk2") 10 (inject_Z 1002) "hk1"
           ltac:(discriminate)).
Defined.

(** X5. Bounded memory: with a non-negative limit, if every window holds at
    most [MAX_REQUESTS] timestamps before a call, so it does after it,
    whoever calls and whatever the decision. *)
Theorem windows_stay_bounded (c : cortext_constants) (mg : metagraph)
    (m : miner) (syn : synapse) (blacklist_amt : Z) (current_time : Q) :
  0 <= MAX_REQUESTS c →
  windows_bounded (MAX_REQUESTS c) (request_timestamps m) →
  windows_bounded (MAX_REQUESTS c)
    (request_timestamps
       (snd (base_blacklist c mg m syn blacklist_amt current_time))).
Proof.
  intros Hlimit Hbounded.
  destruct (base_blacklist_cases c mg m syn blacklist_amt current_time)
    as [-> | (hotkey & pruned & _ & Hpruned & Hcases)]; [done |].
  assert (Hwindow : Z.of_nat (length (window_of (request_timestamps m)
                                        hotkey)) <= MAX_REQUESTS c).
  { unfold window_of.
    destruct (request_timestamps m !! hotkey) as [dq |] eqn:Hdq; simpl.
    - by apply (Hbounded hotkey dq).
    - done. }
  assert (Hshorter : (length pruned
                      ≤ length (window_of (request_timestamps m) hotkey))%nat).
  { subst pruned. apply prune_length. }
  unfold windows_bounded.
  destruct Hcases as [[_ ->] | [Hroom ->]];
    apply map_Forall_insert_2; try done.
  - lia.
  - rewrite length_app. simpl. lia.
Qed.

Lemma windows_stay_bounded_witness :
  windows_bounded 2 (request_timestamps busy_miner)
  ∧ windows_bounded 2
      (request_timestamps
         (snd (base_blacklist example_constants example_metagraph busy_miner
                 (request_from "hk1") 100 (inject_Z 1002)))).
Proof.
  assert (Hbefore : windows_bounded 2 (request_timestamps busy_miner)).
  { unfold windows_bounded, busy_miner. simpl.
    apply map_Forall_insert_2; [simpl; lia | apply map_Forall_empty]. }
  split; [exact Hbefore |].
  exact (windows_stay_bounded example_constants example_metagraph busy_miner
           (request_from "hk1") 100 (inject_Z 1002) ltac:(simpl; lia)
           Hbefore).
Defined.

(** ** Time order *)

Lemma in_time_order_suffix (current_time : Q) (dropped dq : list Q) :
  in_time_order current_time (dropped ++ dq) → in_time_order current_time dq.
Proof.
  induction dropped as [| t dropped IH]; [done |].
  intros [Hsorted Hpast]. apply IH.
  inversion Hsorted; subst. inversion Hpast; subst. by split.
Qed.

Lemma in_time_order_snoc (current_time : Q) (dq : list Q) :
  in_time_order current_time dq →
  in_time_order current_time (dq ++ [current_time]).
Proof.
  intros [Hsorted Hpast]. split.
  - induction Hsorted as [| t rest Hrest IH Hle]; simpl.
    + repeat constructor.
    + inversion Hpast; subst. constructor; [by apply IH |].
      apply Forall_app. split; [done |]. by apply Forall_singleton.
  - apply Forall_app. split; [done |].
    apply Forall_singleton, Qle_refl.
Qed.

(** X6. Under a clock that does not run backwards the windows stay in time
    order: if before a call every window is sorted and holds no timestamp
    later than the current time, the same holds after the call.  This is
    what makes dropping from the head only the same as dropping every
    expired timestamp. *)
Theorem windows_stay_in_time_order (c : cortext_constants) (mg : metagraph)
    (m : miner) (syn : synapse) (blacklist_amt : Z) (current_time : Q) :
  (∀ hotkey, in_time_order current_time
               (window_of (request_timestamps m) hotkey)) →
  ∀ hotkey,
    in_time_order current_time
      (window_of (request_timestamps
                    (snd (base_blacklist c mg m syn blacklist_amt
                            current_time))) hotkey).
Proof.
  intros Hbefore hotkey.
  destruct (base_blacklist_cases c mg m syn blacklist_amt current_time)
    as [-> | (caller & pruned & _ & Hpruned & Hcases)]; [done |].
  assert (Hordered : in_time_order current_time pruned).
  { destruct (prune_split current_time
                (inject_Z (MIN_REQUEST_PERIOD c * 60))
                (window_of (request_timestamps m) caller))
      as (dropped & Hsplit & _).
    subst pruned. apply (in_time_order_suffix _ dropped).
    rewrite <- Hsplit. apply Hbefore. }
  unfold window_of in *.
  destruct Hcases as [[_ ->] | [_ ->]];
    (destruct (decide (caller = hotkey)) as [-> | Hne];
     [rewrite lookup_insert_eq | rewrite lookup_insert_ne by done;
                                 apply Hbefore]); simpl; [done |].
  by apply in_time_order_snoc.
Qed.

Lemma windows_stay_in_time_order_witness :
  in_time_order (inject_Z 1002)
    (window_of (request_timestamps
                  (snd (base_blacklist example_constants example_metagraph
                          busy_miner (request_from "hk1") 100
                          (inject_Z 1002)))) "hk1").
Proof.
  refine (windows_stay_in_time_order example_constants example_metagraph
            busy_miner (request_from "hk1") 100 (inject_Z 1002) _ "hk1").
  intros hotkey. unfold window_of, busy_miner. simpl.
  destruct (decide (hotkey = "hk1")) as [-> | Hne].
  - rewrite lookup_singleton_eq. simpl.
    split; repeat constructor; vm_compute; discriminate.
  - rewrite lookup_singleton_ne by done. simpl.
    split; constructor.
Defined.

(** ** A burst of requests *)

Lemma identity_and_stake_hotkey (c : cortext_constants) (mg : metagraph)
    (syn : synapse) (blacklist_amt : Z) (hotkey : string) :
  identity_and_stake c mg syn blacklist_amt = ok (inr hotkey) →
  ∀ m current_time,
    base_blacklist c mg m syn blacklist_amt current_time
    = let '(d, m') := rate_check c m syn hotkey current_time in (Some d, m').
Proof. intros Hpass m current_time. unfold base_blacklist. by rewrite Hpass. Qed.

Lemma burst_from_window (c : cortext_constants) (mg : metagraph)
    (syn : synapse) (blacklist_amt : Z) (hotkey : string)
    (times : list Q) :
  identity_and_stake c mg syn blacklist_amt = ok (inr hotkey) →
  0 <= MAX_REQUESTS c →
  ∀ (m : miner) (room : nat),
    let window := window_of (request_timestamps m) hotkey in
    Z.of_nat (length window) + Z.of_nat room = MAX_REQUESTS c →
    (∀ s t, s ∈ times → t ∈ window ++ times →
       Qgtb (s - t) (inject_Z (MIN_REQUEST_PERIOD c * 60)) = false) →
    let r := serve c mg syn blacklist_amt m times in
    blacklisted <$> fst r
    = replicate (min (length times) room) (Some false)
      ++ replicate (length times - room) (Some true)
    ∧ window_of (request_timestamps (snd r)) hotkey
      = window ++ take room times.
Proof.
  intros Hpass Hlimit.
  induction times as [| t later IH]; intros m room window Hroom Hfresh r.
  - subst r. simpl. by rewrite take_nil, app_nil_r.
  - subst r. simpl serve.
    rewrite (identity_and_stake_hotkey c mg syn blacklist_amt hotkey Hpass).
    unfold rate_check. fold window.
    rewrite prune_fresh.
    2: { apply Forall_forall. intros x Hx.
         apply Hfresh; [apply elem_of_cons; by left
                       | apply elem_of_app; by left]. }
    destruct room as [| room].
    + rewrite bool_decide_true by lia.
      set (m1 := {| request_timestamps :=
                      <[hotkey := window]> (request_timestamps m);
                    log := Admission.log m |}).
      specialize (IH m1 0%nat).
      assert (Hwindow1 : window_of (request_timestamps m1) hotkey = window).
      { apply AdmissionFacts.window_of_insert. }
      cbv zeta in IH. rewrite Hwindow1 in IH.
      destruct IH as [IHds IHwindow]; [lia | |].
      { intros s x Hs Hx. apply Hfresh; [apply elem_of_cons; by right |].
        apply elem_of_app in Hx as [Hx | Hx]; apply elem_of_app;
          [by left | right; apply elem_of_cons; by right]. }
      destruct (serve c mg syn blacklist_amt m1 later) as [ds m2].
      csimpl in *. rewrite Nat.min_0_r, Nat.sub_0_r in IHds.
      by rewrite IHds, IHwindow.
    + rewrite bool_decide_false by lia.
      set (m1 := {| request_timestamps :=
                      <[hotkey := window ++ [t]]> (request_timestamps m);
                    log := Admission.log m |}).
      specialize (IH m1 room).
      assert (Hwindow1 : window_of (request_timestamps m1) hotkey
                         = window ++ [t]).
      { apply AdmissionFacts.window_of_insert. }
      cbv zeta in IH. rewrite Hwindow1 in IH.
      destruct IH as [IHds IHwindow].
      { rewrite length_app. simpl. lia. }
      { intros s x Hs Hx. apply Hfresh; [apply elem_of_cons; by right |].
        by rewrite <- (assoc_L (++)) in Hx. }
      destruct (serve c mg syn blacklist_amt m1 later) as [ds m2].
      csimpl in *. rewrite IHds, IHwindow.
      by rewrite <- (assoc_L (++)).
Qed.

(** X7. A caller with no recorded timestamp sends a burst of requests, all
    of them inside one window of each other: the first [MAX_REQUESTS] are
    admitted and every later one is rejected, and the window ends up
    holding the times of the admitted ones. *)
Theorem burst_is_cut_at_the_limit (c : cortext_constants) (mg : metagraph)
    (m : miner) (syn : synapse) (blacklist_amt : Z) (hotkey : string)
    (times : list Q) :
  identity_and_stake c mg syn blacklist_amt = ok (inr hotkey) →
  0 <= MAX_REQUESTS c →
  window_of (request_timestamps m) hotkey = [] →
  (∀ s t, s ∈ times → t ∈ times →
     Qgtb (s - t) (inject_Z (MIN_REQUEST_PERIOD c * 60)) = false) →
  let limit := Z.to_nat (MAX_REQUESTS c) in
  let r := serve c mg syn blacklist_amt m times in
  blacklisted <$> fst r
  = replicate (min (length times) limit) (Some false)
    ++ replicate (length times - limit) (Some true)
  ∧ window_of (request_timestamps (snd r)) hotkey = take limit times.
Proof.
  intros Hpass Hlimit Hfresh Hclose limit r.
  pose proof (burst_from_window c mg syn blacklist_amt hotkey times Hpass
                Hlimit m limit) as Hburst.
  cbv zeta in Hburst. rewrite Hfresh in Hburst. simpl in Hburst.
  apply Hburst; [subst limit; lia | done].
Qed.

(** Three requests of [hk1] within two seconds, under a limit of two per
    minute. *)
Lemma burst_is_cut_at_the_limit_witness :
  let fresh := {| request_timestamps := ∅; Admission.log := [] |} in
  let r := serve example_constants example_metagraph (request_from "hk1") 100
             fresh [inject_Z 1000; inject_Z 1001; inject_Z 1002] in
  blacklisted <$> fst r = [Some false; Some false; Some true]
  ∧ window_of (request_timestamps (snd r)) "hk1"
    = [inject_Z 1000; inject_Z 1001].
Proof.
  cbv zeta.
  refine (burst_is_cut_at_the_limit example_constants example_metagraph
            {| request_timestamps := ∅; Admission.log := [] |}
            (request_from "hk1") 100 "hk1"
            [inject_Z 1000; inject_Z 1001; inject_Z 1002]
            eq_refl ltac:(simpl; lia) eq_refl _).
  intros s t Hs Ht.
  repeat (apply elem_of_cons in Hs as [-> | Hs]);
    repeat (apply elem_of_cons in Ht as [-> | Ht]);
    try reflexivity; by apply elem_of_nil in Hs || by apply elem_of_nil in Ht.
Defined.

(** ** The start-up check *)

(** X8. The miner exits exactly when its hotkey is not in the metagraph;
    otherwise its uid is the first index that holds the hotkey.  The
    index lookup never raises, its guard having passed. *)
Theorem check_hotkey_validation_spec (mg : metagraph)
    (ss58_address wallet : string) :
  match fst (check_hotkey_validation mg ss58_address wallet) with
  | Exit => ss58_address ∉ hotkeys mg
  | Uid uid =>
      hotkeys mg !! uid = Some ss58_address
      ∧ ∀ j, (j < uid)%nat → hotkeys mg !! j ≠ Some ss58_address
  | Raised _ => False
  end.
Proof.
  unfold check_hotkey_validation. case_bool_decide as Hin; [done |].
  unfold hotkeys_index.
  destruct (list_find (λ h, h = ss58_address) (hotkeys mg))
    as [[i h] |] eqn:Hfind; simpl.
  - apply list_find_Some in Hfind as (Hi & -> & Hfirst).
    split; [done |]. intros j Hj Hhit. by apply (Hfirst j ss58_address).
  - apply list_find_None in Hfind. rewrite Forall_forall in Hfind.
    by apply (Hfind ss58_address Hin).
Qed.

End ServingFacts.


(** * More properties of the streaming dispatcher *)

Module ProtocolFacts.
Import Dispatch Protocol DispatchFacts.

#[local] Hint Resolve streams_only_mret streams_only_raise streams_only_lift
  streams_only_logging streams_only_call streams_only_send
  streams_only_bind streams_only_for_each streams_only_for_stream
  streams_only_buffered_loop : dispatch.

(** ** The buffered branches never close *)

Lemma buffered_step_empties {C T} (token_of : C → result T)
    (join_tokens : list T → result string) (chunk : C) (w w' : world)
    (buffer : list T) :
  buffered_step token_of join_tokens [] chunk w = (inr buffer, w') →
  buffer = [].
Proof.
  unfold buffered_step, mbind, lift, send, logging, mret. simpl.
  destruct (token_of chunk) as [e | token]; [done |].
  destruct (join_tokens [token]) as [e | joined]; [done |].
  by intros [= <- _].
Qed.

Lemma buffered_for_each_empties {C T} (token_of : C → result T)
    (join_tokens : list T → result string) (chunks : list C) :
  ∀ w w' buffer,
    for_each (buffered_step token_of join_tokens) chunks [] w
    = (inr buffer, w') →
    buffer = [].
Proof.
  induction chunks as [| chunk rest IH]; intros w w' buffer Hrun; simpl in Hrun.
  - by injection Hrun as <- _.
  - unfold mbind in Hrun.
    destruct (buffered_step token_of join_tokens [] chunk w)
      as [[e | b] w1] eqn:Hstep; [done |].
    apply buffered_step_empties in Hstep as ->. by eapply IH.
Qed.

(** With [n = 1] the loop leaves an empty buffer whenever it ends
    normally. *)
Lemma buffered_loop_empties {C T} (token_of : C → result T)
    (join_tokens : list T → result string) (s : stream C) (w w' : world)
    (buffer : list T) :
  buffered_loop token_of join_tokens s w = (inr buffer, w') → buffer = [].
Proof.
  unfold buffered_loop, for_stream, mbind.
  destruct (for_each _ (items s) [] w) as [[e | b] w1] eqn:Hloop; [done |].
  apply buffered_for_each_empties in Hloop as ->.
  destruct (failure s); [done |]. by intros [= <- _].
Qed.

Lemma streams_only_flushed_loop {C T} (token_of : C → result T)
    (join_tokens : list T → result string) (s : stream C) :
  streams_only (mbind (buffered_loop token_of join_tokens s)
                  (final_flush join_tokens)).
Proof.
  intros w r w' Hrun. unfold mbind in Hrun.
  destruct (buffered_loop token_of join_tokens s w) as [[e | b] w1] eqn:Hloop.
  - injection Hrun as <- <-.
    by eapply (streams_only_buffered_loop token_of join_tokens s).
  - pose proof (buffered_loop_empties _ _ _ _ _ _ Hloop) as ->.
    injection Hrun as <- <-.
    by eapply (streams_only_buffered_loop token_of join_tokens s).
Qed.

Lemma streams_only_buffered_branches (up : upstream) (syn : synapse) :
  provider syn ∈ buffered_providers → streams_only (_prompt_body up syn).
Proof.
  unfold buffered_providers. rewrite !elem_of_cons, elem_of_nil.
  intros [Hp | [Hp | [Hp | []]]]; unfold _prompt_body; rewrite Hp; simpl.
  - unfold openai_branch.
    apply streams_only_bind; [eauto with dispatch |]. intros fm.
    apply streams_only_bind; [eauto with dispatch |]. intros response.
    apply streams_only_flushed_loop.
  - unfold groq_branch. eauto 10 with dispatch.
  - unfold bedrock_branch.
    apply streams_only_bind; [eauto with dispatch |]. intros request.
    destruct (startswith "ai21" (model syn)).
    + apply streams_only_bind; [eauto with dispatch |]. intros message.
      apply streams_only_bind; [eauto with dispatch |]. intros token.
      destruct token; eauto with dispatch.
    + apply streams_only_bind; [eauto with dispatch |]. intros stream.
      apply streams_only_flushed_loop.
Qed.

Lemma prompt_sink (up : upstream) (syn : synapse) (w : world) :
  sink (_prompt up syn w) = sink (snd (_prompt_body up syn w)).
Proof. unfold _prompt. by destruct (_prompt_body up syn w) as [[e | []] w']. Qed.

(** X9. Whatever the upstream yields and however the dispatch ends, a
    dispatch to OpenAI, Groq or Bedrock never makes a [more_body=False]
    send: every send the sink observes from it is a [more_body=True]
    send.  The flush after the loop of the OpenAI and Bedrock branches is
    dead code, the buffer being empty there. *)
Theorem buffered_branches_never_close (up : upstream) (syn : synapse)
    (w : world) :
  provider syn ∈ buffered_providers →
  ∃ sends, sink (_prompt up syn w) = sink w ++ sends
           ∧ Forall (λ s, more_body s = true) sends.
Proof.
  intros Hbuffered. rewrite prompt_sink.
  destruct (_prompt_body up syn w) as [r w'] eqn:Hrun.
  by apply (streams_only_buffered_branches up syn Hbuffered w r w').
Qed.

Lemma buffered_branches_never_close_witness :
  ∃ sends,
    sink (_prompt (provider_yielding ["a"; "b"] None) (user_request "Bedrock")
            empty_world) = sink empty_world ++ sends
    ∧ Forall (λ s, more_body s = true) sends.
Proof.
  refine (buffered_branches_never_close (provider_yielding ["a"; "b"] None)
            (user_request "Bedrock") empty_world _).
  unfold buffered_providers. simpl. rewrite !elem_of_cons. tauto.
Defined.

(** ** The sink protocol *)

Lemma closes_at_most_once_streams {A} (m : M A) :
  streams_only m → closes_at_most_once m.
Proof.
  intros Hm w r w' Hrun. destruct (Hm w r w' Hrun) as (sends & Hsink & Hall).
  exists sends. split; [done | by left].
Qed.

Lemma closes_at_most_once_bind {A B} (m : M A) (k : A → M B) :
  streams_only m → (∀ a, closes_at_most_once (k a)) →
  closes_at_most_once (mbind m k).
Proof.
  intros Hm Hk w r w' Hrun. unfold mbind in Hrun.
  destruct (m w) as [[e | a] w1] eqn:Hmw.
  - injection Hrun as <- <-. by eapply (closes_at_most_once_streams m).
  - destruct (Hm _ _ _ Hmw) as (s1 & Hs1 & Hall1).
    destruct (Hk a _ _ _ Hrun) as (s2 & Hall2 & Hs2).
    exists (s1 ++ s2). split; [by apply Forall_app |].
    rewrite Hs1 in Hs2. rewrite <- !(assoc_L (++)) in Hs2.
    by rewrite <- !(assoc_L (++)).
Qed.

Lemma closes_at_most_once_close_stream : closes_at_most_once close_stream.
Proof.
  intros w r w' [= <- <-]. exists []. split; [done | by right].
Qed.

Lemma closes_on_return_bind {A B} (m : M A) (k : A → M B) :
  streams_only m → (∀ a, closes_on_return (k a)) →
  closes_on_return (mbind m k).
Proof.
  intros Hm Hk w b w' Hrun. unfold mbind in Hrun.
  destruct (m w) as [[e | a] w1] eqn:Hmw; [done |].
  destruct (Hm _ _ _ Hmw) as (s1 & Hs1 & Hall1).
  destruct (Hk a _ _ _ Hrun) as (s2 & Hall2 & Hs2).
  exists (s1 ++ s2). split; [by apply Forall_app |].
  by rewrite Hs2, Hs1, <- !(assoc_L (++)).
Qed.

Lemma closes_on_return_close_stream : closes_on_return close_stream.
Proof. intros w a w' [= _ <-]. exists []. by split. Qed.

Section Closing.
Context (up : upstream) (syn : synapse).

(** The shape shared by the three closing branches: a call, a loop that
    only streams, the closing send. *)
Lemma anthropic_bedrock_loop_streams (stream : Dispatch.stream string) :
  streams_only
    (for_stream stream
       (λ _ completion,
          if str_truthy completion
          then (send completion true;;
                logging (LogInfo ("Streamed text: " +:+ completion)))%M
          else mret tt) tt).
Proof.
  apply streams_only_for_stream. intros _ completion.
  destruct (str_truthy completion); eauto with dispatch.
Qed.

Lemma anthropic_loop_streams (stream : Dispatch.stream string) :
  streams_only
    (for_stream stream
       (λ _ t, (send t true;; logging (LogInfo ("Streamed text: " +:+ t)))%M)
       tt).
Proof. apply streams_only_for_stream. intros _ t. eauto with dispatch. Qed.

Lemma gemini_loop_streams (stream : Dispatch.stream gemini_chunk) :
  streams_only
    (for_stream stream
       (λ _ chunk,
          match candidates chunk with
          | [] => raise IndexError
          | parts :: _ =>
              for_each
                (λ _ part,
                   (send (text chunk) true;;
                    logging (LogInfo ("Streamed text: " +:+ text chunk)))%M)
                parts tt
          end) tt).
Proof.
  apply streams_only_for_stream. intros _ chunk.
  destruct (candidates chunk) as [| parts others]; [eauto with dispatch |].
  apply streams_only_for_each. intros _ part. eauto with dispatch.
Qed.

Lemma closes_at_most_once_prompt_body :
  closes_at_most_once (_prompt_body up syn).
Proof.
  destruct (decide (provider syn ∈ buffered_providers)) as [Hbuffered | Hnot].
  { by apply closes_at_most_once_streams, streams_only_buffered_branches. }
  unfold buffered_providers in Hnot. rewrite !not_elem_of_cons in Hnot.
  destruct Hnot as (H1 & H5 & H6 & _).
  apply String.eqb_neq in H1, H5, H6.
  unfold _prompt_body. rewrite H1.
  destruct (String.eqb (provider syn) "AnthropicBedrock").
  { unfold anthropic_bedrock_branch.
    apply closes_at_most_once_bind; [eauto with dispatch |]. intros stream.
    apply closes_at_most_once_bind; [apply anthropic_bedrock_loop_streams |].
    intros _. apply closes_at_most_once_close_stream. }
  destruct (String.eqb (provider syn) "Anthropic").
  { unfold anthropic_branch.
    apply closes_at_most_once_bind; [eauto with dispatch |]. intros [fm sp].
    apply closes_at_most_once_bind; [eauto with dispatch |]. intros stream.
    apply closes_at_most_once_bind; [apply anthropic_loop_streams |].
    intros _. apply closes_at_most_once_close_stream. }
  destruct (String.eqb (provider syn) "Gemini").
  { unfold gemini_branch.
    apply closes_at_most_once_bind; [eauto with dispatch |]. intros stream.
    apply closes_at_most_once_bind; [apply gemini_loop_streams |].
    intros _. apply closes_at_most_once_close_stream. }
  rewrite H5, H6. apply closes_at_most_once_streams. eauto with dispatch.
Qed.

Lemma closes_on_return_closing_branches :
  provider syn ∈ closing_providers → closes_on_return (_prompt_body up syn).
Proof.
  unfold closing_providers. rewrite !elem_of_cons, elem_of_nil.
  intros [Hp | [Hp | [Hp | []]]]; unfold _prompt_body; rewrite Hp; simpl.
  - unfold anthropic_bedrock_branch.
    apply closes_on_return_bind; [eauto with dispatch |]. intros stream.
    apply closes_on_return_bind; [apply anthropic_bedrock_loop_streams |].
    intros _. apply closes_on_return_close_stream.
  - unfold anthropic_branch.
    apply closes_on_return_bind; [eauto with dispatch |]. intros [fm sp].
    apply closes_on_return_bind; [eauto with dispatch |]. intros stream.
    apply closes_on_return_bind; [apply anthropic_loop_streams |].
    intros _. apply closes_on_return_close_stream.
  - unfold gemini_branch.
    apply closes_on_return_bind; [eauto with dispatch |]. intros stream.
    apply closes_on_return_bind; [apply gemini_loop_streams |].
    intros _. apply closes_on_return_close_stream.
Qed.
End Closing.

(** X10. The sink protocol of any dispatch, whatever the provider name, the
    request and the upstream behaviour: [more_body=True] sends, then at
    most one closing send, which has an empty body.  A dispatch never
    sends after it closed, never closes twice, and never puts a payload
    in a [more_body=False] send. *)
Theorem dispatch_closes_at_most_once (up : upstream) (syn : synapse)
    (w : world) :
  ∃ pre,
    Forall (λ s, more_body s = true) pre
    ∧ (sink (_prompt up syn w) = sink w ++ pre
       ∨ sink (_prompt up syn w) = sink w ++ pre ++ [terminator]).
Proof.
  rewrite prompt_sink.
  destruct (_prompt_body up syn w) as [r w'] eqn:Hrun.
  by apply (closes_at_most_once_prompt_body up syn w r w').
Qed.

(** X11. On the AnthropicBedrock, Anthropic and Gemini branches the stream is
    closed exactly when the dispatch meets no exception: if the body
    returns, the sends end with the closing send; if it raises, no
    closing send is made. *)
Theorem closing_branches_close_iff_no_exception (up : upstream)
    (syn : synapse) (w : world) :
  provider syn ∈ closing_providers →
  ∃ pre,
    Forall (λ s, more_body s = true) pre
    ∧ match fst (_prompt_body up syn w) with
      | inr _ => sink (_prompt up syn w) = sink w ++ pre ++ [terminator]
      | inl _ => sink (_prompt up syn w) = sink w ++ pre
      end.
Proof.
  intros Hclosing. rewrite prompt_sink.
  destruct (_prompt_body up syn w) as [[e | a] w'] eqn:Hrun; simpl.
  - destruct (open_on_raise_prompt_body up syn w e w' Hrun)
      as (sends & Hsink & Hall). by exists sends.
  - by apply (closes_on_return_closing_branches up syn Hclosing w a w').
Qed.

Lemma closing_branches_close_iff_no_exception_witness :
  ∃ pre,
    Forall (λ s, more_body s = true) pre
    ∧ sink (_prompt (provider_yielding ["a"] None) (user_request "Gemini")
              empty_world) = sink empty_world ++ pre ++ [terminator].
Proof.
  refine (closing_branches_close_iff_no_exception
            (provider_yielding ["a"] None) (user_request "Gemini")
            empty_world _).
  unfold closing_providers. simpl. rewrite !elem_of_cons. tauto.
Defined.

(** ** Upstream calls *)

#[local] Hint Resolve no_call_mret no_call_raise no_call_lift no_call_logging
  no_call_send no_call_bind no_call_for_each no_call_buffered_loop
  no_call_final_flush : dispatch.

Lemma no_call_for_stream {C St} (s : stream C) (body : St → C → M St)
    (st : St) :
  (∀ st x, no_call (body st x)) → no_call (for_stream s body st).
Proof.
  intros Hbody. unfold for_stream. apply no_call_bind.
  - by apply no_call_for_each.
  - intros st'. destruct (failure s); eauto with dispatch.
Qed.

Lemma calls_at_most_once_quiet {A} (m : M A) :
  no_call m → calls_at_most_once m.
Proof.
  intros Hm w r w' Hrun. exists []. rewrite app_nil_r.
  split; [by eapply Hm | simpl; lia].
Qed.

Lemma calls_at_most_once_bind {A B} (m : M A) (k : A → M B) :
  no_call m → (∀ a, calls_at_most_once (k a)) →
  calls_at_most_once (mbind m k).
Proof.
  intros Hm Hk w r w' Hrun. unfold mbind in Hrun.
  destruct (m w) as [[e | a] w1] eqn:Hmw.
  - injection Hrun as <- <-. by eapply (calls_at_most_once_quiet m).
  - destruct (Hk a _ _ _ Hrun) as (cs & Hcs & Hone).
    exists cs. by rewrite Hcs, (Hm _ _ _ Hmw).
Qed.

Lemma calls_at_most_once_call {R B} (client : upstream_call → result R)
    (c : upstream_call) (k : R → M B) :
  (∀ r, no_call (k r)) → calls_at_most_once (mbind (call client c) k).
Proof.
  intros Hk w r w' Hrun. unfold mbind, call in Hrun. exists [c].
  split; [| simpl; lia].
  destruct (client c) as [e | answer].
  - by injection Hrun as <- <-.
  - by rewrite (Hk answer _ _ _ Hrun).
Qed.

Lemma calls_at_most_once_prompt_body (up : upstream) (syn : synapse) :
  calls_at_most_once (_prompt_body up syn).
Proof.
  unfold _prompt_body. repeat case_match.
  - unfold openai_branch.
    apply calls_at_most_once_bind; [eauto with dispatch |]. intros fm.
    apply calls_at_most_once_call. intros response. eauto with dispatch.
  - unfold anthropic_bedrock_branch.
    apply calls_at_most_once_call. intros stream.
    apply no_call_bind; [| intros; apply no_call_send].
    apply no_call_for_stream. intros _ completion.
    destruct (str_truthy completion); eauto with dispatch.
  - unfold anthropic_branch.
    apply calls_at_most_once_bind; [eauto with dispatch |]. intros [fm sp].
    apply calls_at_most_once_call. intros stream.
    apply no_call_bind; [| intros; apply no_call_send].
    apply no_call_for_stream. intros _ t. eauto with dispatch.
  - unfold gemini_branch.
    apply calls_at_most_once_call. intros stream.
    apply no_call_bind; [| intros; apply no_call_send].
    apply no_call_for_stream. intros _ chunk.
    destruct (candidates chunk); [eauto with dispatch |].
    apply no_call_for_each. intros _ part. eauto with dispatch.
  - unfold groq_branch.
    apply calls_at_most_once_call. intros stream. eauto with dispatch.
  - unfold bedrock_branch.
    apply calls_at_most_once_bind; [eauto with dispatch |]. intros request.
    destruct (startswith "ai21" (model syn)).
    + apply calls_at_most_once_call. intros message.
      apply no_call_bind; [eauto with dispatch |]. intros token.
      destruct token; eauto with dispatch.
    + apply calls_at_most_once_call. intros stream. eauto with dispatch.
  - apply calls_at_most_once_quiet. eauto with dispatch.
Qed.

(** X12. A dispatch issues one upstream call at most, whatever the provider
    and however the stream goes: there is no retry and no second request,
    after a failure included. *)
Theorem dispatch_calls_upstream_at_most_once (up : upstream) (syn : synapse)
    (w : world) :
  ∃ cs, calls (_prompt up syn w) = calls w ++ cs ∧ (length cs ≤ 1)%nat.
Proof.
  rewrite prompt_calls.
  destruct (_prompt_body up syn w) as [r w'] eqn:Hrun.
  by apply (calls_at_most_once_prompt_body up syn w r w').
Qed.

(** ** What the closing branches send, chunk by chunk *)

(** A loop whose body always returns, adding the sends [emit x] and the
    log lines [note x] for the element [x]. *)
Lemma for_each_emits {C} (body : unit → C → M unit)
    (emit : C → list send_event) (note : C → list log_entry) (xs : list C) :
  (∀ x w, x ∈ xs →
     body tt x w = (inr tt, {| sink := sink w ++ emit x;
                               log := log w ++ note x;
                               calls := calls w |})) →
  ∀ w, for_each body xs tt w
       = (inr tt, {| sink := sink w ++ concat (emit <$> xs);
                     log := log w ++ concat (note <$> xs);
                     calls := calls w |}).
Proof.
  induction xs as [| x xs IH]; intros Hbody w.
  - simpl. unfold mret. rewrite !app_nil_r. by destruct w.
  - simpl for_each. erewrite mbind_ok by (apply Hbody, elem_of_cons; by left).
    rewrite IH by (intros; apply Hbody, elem_of_cons; by right).
    csimpl. by rewrite <- !(assoc_L (++)).
Qed.

Lemma for_stream_emits {C} (s : stream C) (body : unit → C → M unit)
    (emit : C → list send_event) (note : C → list log_entry) (w : world) :
  (∀ x w, x ∈ items s →
     body tt x w = (inr tt, {| sink := sink w ++ emit x;
                               log := log w ++ note x;
                               calls := calls w |})) →
  for_stream s body tt w
  = (match failure s with None => inr tt | Some e => inl e end,
     {| sink := sink w ++ concat (emit <$> items s);
        log := log w ++ concat (note <$> items s);
        calls := calls w |}).
Proof.
  intros Hbody. unfold for_stream.
  erewrite mbind_ok by by apply for_each_emits.
  by destruct (failure s).
Qed.

Lemma concat_singletons {A B} (f : A → B) (xs : list A) :
  concat ((λ x, [f x]) <$> xs) = f <$> xs.
Proof. induction xs as [| x xs IH]; csimpl; by rewrite ?IH. Qed.


Lemma concat_optional (xs : list string) :
  concat ((λ t, if str_truthy t
                then [{| body := t; more_body := true |}] else [])
            <$> xs)
  = streamed (List.filter str_truthy xs).
Proof.
  induction xs as [| x xs IH]; [done |]. csimpl.
  destruct (str_truthy x); csimpl; by rewrite IH.
Qed.

(** After the loop: the closing send when the sequence ended normally,
    the [except] clause otherwise. *)
Lemma closing_after_loop (loop : M unit) (w w1 : world) (fail : option exn) :
  loop w = (match fail with None => inr tt | Some e => inl e end, w1) →
  sink (snd (mbind loop (λ _, close_stream) w)) = sink w1 ++ closing fail
  ∧ calls (snd (mbind loop (λ _, close_stream) w)) = calls w1.
Proof.
  intros Hloop. unfold mbind. rewrite Hloop.
  destruct fail; simpl; by rewrite ?app_nil_r.
Qed.

(** X14. The Anthropic branch forwards the text chunks one send each, in the
    order of the stream and empty ones included, and then closes if the
    stream ended normally.  Its one upstream call carries the translated
    messages, and the system prompt only when that is not empty. *)
Theorem anthropic_forwards_chunks_in_order (up : upstream) (syn : synapse)
    (w : world) (filtered : list out_message) (system_prompt : option string)
    (s : stream string) :
  provider syn = "Anthropic" →
  generate_messages_to_claude up (messages syn)
  = ok (filtered, system_prompt) →
  anthropic_client up
    (AnthropicMessagesStream (max_tokens syn) filtered (model syn)
       (system_kwarg system_prompt)) = ok s →
  sink (_prompt up syn w)
  = sink w ++ streamed (items s) ++ closing (failure s)
  ∧ calls (_prompt up syn w)
    = calls w ++ [AnthropicMessagesStream (max_tokens syn) filtered
                    (model syn) (system_kwarg system_prompt)].
Proof.
  intros Hprovider Htranslate Hanswer.
  rewrite prompt_sink, prompt_calls.
  assert (Hbody : _prompt_body up syn = anthropic_branch up syn).
  { unfold _prompt_body. by rewrite Hprovider. }
  rewrite Hbody. unfold anthropic_branch.
  erewrite mbind_ok by (unfold lift; rewrite Htranslate; reflexivity).
  cbv beta iota.
  erewrite mbind_ok by (unfold call; rewrite Hanswer; reflexivity).
  match goal with
  | |- context [mbind ?loop _ ?w1] =>
      destruct (closing_after_loop loop w1
                  {| sink := sink w1 ++ streamed (items s);
                     log := log w1
                            ++ concat ((λ t, [LogInfo ("Streamed text: " +:+ t)])
                                         <$> items s);
                     calls := calls w1 |} (failure s)) as [-> ->]
  end.
  - unfold streamed.
    rewrite <- (concat_singletons
                  (λ t, {| body := t; more_body := true |}) (items s)).
    by apply for_stream_emits.
  - simpl. by rewrite <- (assoc_L (++)).
Qed.

Lemma anthropic_forwards_chunks_in_order_witness :
  let w := _prompt (provider_yielding ["a"; ""; "b"] None)
             (request_with "Anthropic"
                [system_message ""; user_message "hi"]) empty_world in
  sink w = streamed ["a"; ""; "b"] ++ [terminator]
  ∧ calls w
    = [AnthropicMessagesStream 64
         [{| om_role := "user"; om_content := [TextBlock "hi"] |}]
         "cohere.command-text-v14" None].
Proof.
  cbv zeta.
  exact (anthropic_forwards_chunks_in_order
           (provider_yielding ["a"; ""; "b"] None)
           (request_with "Anthropic" [system_message ""; user_message "hi"])
           empty_world
           [{| om_role := "user"; om_content := [TextBlock "hi"] |}]
           (Some "") (yielding ["a"; ""; "b"] None)
           eq_refl eq_refl eq_refl).
Defined.

(** X15. The AnthropicBedrock branch forwards the completions in order but
    skips the empty ones, and then closes if the stream ended
    normally. *)
Theorem anthropic_bedrock_skips_empty_completions (up : upstream)
    (syn : synapse) (w : world) (s : stream string) :
  provider syn = "AnthropicBedrock" →
  (∀ c, anthropic_bedrock_client up c = ok s) →
  sink (_prompt up syn w)
  = sink w ++ streamed (List.filter str_truthy (items s))
    ++ closing (failure s).
Proof.
  intros Hprovider Hanswer. rewrite prompt_sink.
  assert (Hbody : _prompt_body up syn = anthropic_bedrock_branch up syn).
  { unfold _prompt_body. by rewrite Hprovider. }
  rewrite Hbody. unfold anthropic_bedrock_branch.
  erewrite mbind_ok by (unfold call; rewrite Hanswer; reflexivity).
  match goal with
  | |- context [mbind ?loop _ ?w1] =>
      destruct (closing_after_loop loop w1
                  {| sink := sink w1
                             ++ streamed (List.filter str_truthy (items s));
                     log := log w1
                            ++ concat
                                 ((λ t, if str_truthy t
                                        then [LogInfo ("Streamed text: " +:+ t)]
                                        else []) <$> items s);
                     calls := calls w1 |} (failure s)) as [-> _]
  end.
  - rewrite <- concat_optional. apply for_stream_emits.
    intros t w0 _. destruct (str_truthy t); [done |].
    unfold mret. rewrite !app_nil_r. by destruct w0.
  - simpl. by rewrite <- (assoc_L (++)).
Qed.

Lemma anthropic_bedrock_skips_empty_completions_witness :
  sink (_prompt (provider_yielding ["a"; ""; "b"] None)
          (user_request "AnthropicBedrock") empty_world)
  = streamed ["a"; "b"] ++ [terminator].
Proof.
  exact (anthropic_bedrock_skips_empty_completions
           (provider_yielding ["a"; ""; "b"] None)
           (user_request "AnthropicBedrock") empty_world
           (yielding ["a"; ""; "b"] None) eq_refl (λ _, eq_refl)).
Defined.



(** ** Requests that fail before any call *)

Lemma raise_before_call {A} (r : result A) (k : A → M unit) (e : exn)
    (w : world) :
  r = throw e → mbind (lift r) k w = (inl e, w).
Proof. intros ->. reflexivity. Qed.

(** X17. The OpenAI branch fails before any upstream call exactly when the
    message list is empty ([IndexError]) or its first message has no role
    ([KeyError]); the exception is logged and nothing is sent. *)
Theorem openai_bad_messages_make_no_call (up : upstream) (syn : synapse)
    (w : world) (e : exn) :
  provider syn = "OpenAI" →
  openai_messages (messages syn) = throw e →
  _prompt up syn w
  = {| sink := sink w;
       log := log w ++ [LogException "error in _prompt " e];
       calls := calls w |}
  ∧ (e = IndexError ∧ messages syn = []
     ∨ e = KeyError "role"
       ∧ ∃ message rest, messages syn = message :: rest
                         ∧ message !! "role" = None).
Proof.
  intros Hprovider Hfail. split.
  - unfold _prompt, _prompt_body. rewrite Hprovider. simpl.
    unfold openai_branch. by rewrite (raise_before_call _ _ e w Hfail).
  - unfold openai_messages, first_message, getitem in Hfail.
    destruct (messages syn) as [| message rest]; simpl in Hfail.
    + left. by injection Hfail as <-.
    + right. destruct (message !! "role") as [role |] eqn:Hrole; [done |].
      simpl in Hfail. injection Hfail as <-. eauto.
Qed.

Lemma openai_bad_messages_make_no_call_witness :
  _prompt (provider_yielding ["a"] None) (request_with "OpenAI" [])
    empty_world
  = {| sink := [];
       log := [LogException "error in _prompt " IndexError];
       calls := [] |}.
Proof.
  exact (proj1 (openai_bad_messages_make_no_call
                  (provider_yielding ["a"] None) (request_with "OpenAI" [])
                  empty_world IndexError eq_refl eq_refl)).
Defined.

(** X18. A Bedrock model identifier with none of the six known prefixes: the
    request is never built ([native_request] is unbound), so the dispatch
    logs the exception, calls nothing and sends nothing. *)
Theorem bedrock_unknown_family_makes_no_call (up : upstream) (syn : synapse)
    (w : world) :
  provider syn = "Bedrock" →
  family_of (model syn) = None →
  _prompt up syn w
  = {| sink := sink w;
       log := log w ++ [LogException "error in _prompt "
                          (UnboundLocalError "native_request")];
       calls := calls w |}.
Proof.
  intros Hprovider Hfamily.
  unfold _prompt, _prompt_body. rewrite Hprovider. simpl.
  unfold bedrock_branch.
  rewrite (raise_before_call _ _ (UnboundLocalError "native_request") w);
    [done |].
  unfold generate_request. by rewrite Hfamily.
Qed.

Lemma bedrock_unknown_family_makes_no_call_witness :
  let syn := {| provider := "Bedrock"; model := "gpt-4o";
                messages := [user_message "hi"]; seed := 0; temperature := 1;
                max_tokens := 64; top_p := 1; top_k := 1 |} in
  _prompt (provider_yielding ["a"] None) syn empty_world
  = {| sink := [];
       log := [LogException "error in _prompt "
                 (UnboundLocalError "native_request")];
       calls := [] |}.
Proof.
  cbv zeta.
  exact (bedrock_unknown_family_makes_no_call (provider_yielding ["a"] None)
           {| provider := "Bedrock"; model := "gpt-4o";
              messages := [user_message "hi"]; seed := 0; temperature := 1;
              max_tokens := 64; top_p := 1; top_k := 1 |}
           empty_world eq_refl eq_refl).
Defined.

(** X19. For every Bedrock family but the Anthropic one, the request is built
    from [messages[0]["content"]] alone: the messages after the first
    play no part in the dispatch. *)
Theorem bedrock_reads_first_message_only (up : upstream) (syn : synapse)
    (f : family) (message : gmap string string)
    (rest : list (gmap string string)) (w : world) :
  provider syn = "Bedrock" →
  family_of (model syn) = Some f →
  f ≠ Anthropic →
  messages syn = message :: rest →
  _prompt up syn w = _prompt up (with_messages syn [message]) w.
Proof.
  intros Hprovider Hfamily Hf Hmessages.
  assert (Hrequest : generate_request up syn
                     = generate_request up (with_messages syn [message])).
  { unfold generate_request. simpl. rewrite Hfamily, Hmessages.
    by destruct f. }
  unfold _prompt, _prompt_body. simpl. rewrite Hprovider. simpl.
  unfold bedrock_branch. by rewrite Hrequest.
Qed.

Lemma bedrock_reads_first_message_only_witness :
  _prompt (provider_yielding ["a"] None)
    (request_with "Bedrock" [user_message "hi"; user_message "more"])
    empty_world
  = _prompt (provider_yielding ["a"] None)
      (with_messages
         (request_with "Bedrock" [user_message "hi"; user_message "more"])
         [user_message "hi"])
      empty_world.
Proof.
  exact (bedrock_reads_first_message_only (provider_yielding ["a"] None)
           (request_with "Bedrock" [user_message "hi"; user_message "more"])
           Cohere (user_message "hi") [user_message "more"] empty_world
           eq_refl eq_refl ltac:(discriminate) eq_refl).
Defined.

(** ** The Claude translation of plain messages *)

Lemma claude_loop_plain (up : upstream)
    (messages : list (gmap string string)) :
  Forall plain messages →
  ∀ system_prompt acc,
    claude_loop up messages system_prompt acc
    = ok (acc ++ omap plain_translation messages,
          match last (system_contents messages) with
          | Some content => Some content
          | None => system_prompt
          end).
Proof.
  induction 1 as [| message rest (Hrole & Hcontent & Himage) _ IH];
    intros system_prompt acc.
  - simpl. by rewrite app_nil_r.
  - simpl claude_loop. unfold getitem, system_contents. simpl omap.
    unfold plain_translation at 1, system_content at 1, regular_role at 1.
    destruct Hrole as [role Hrole]. rewrite Hrole. simpl.
    destruct (String.eqb role "system") eqn:Hsystem.
    + apply String.eqb_eq in Hsystem as ->.
      destruct (Hcontent Hrole) as [content Hc]. rewrite Hc. simpl.
      rewrite IH, last_cons. unfold system_contents, omap.
      by destruct (last _).
    + rewrite Himage. simpl. rewrite IH, <- (assoc_L (++)). done.
Qed.

(** X21. On messages that have a role, no image and, if they are system
    messages, a content, the Claude translation never fails and needs no
    fetch: it returns one entry per message that is not a system
    message, in order, with the role and the text block (no block for an
    empty content), and the content of the last system message as the
    system prompt. *)
Theorem plain_messages_translate (up : upstream)
    (messages : list (gmap string string)) :
  Forall plain messages →
  generate_messages_to_claude up messages
  = ok (omap plain_translation messages, last (system_contents messages)).
Proof.
  intros Hplain. unfold generate_messages_to_claude.
  rewrite claude_loop_plain by done. simpl. by destruct (last _).
Qed.

Lemma plain_messages_translate_witness :
  generate_messages_to_claude (provider_yielding [] None)
    [system_message "be brief"; user_message "hi"; user_message ""]
  = ok ([{| om_role := "user"; om_content := [TextBlock "hi"] |};
         {| om_role := "user"; om_content := [] |}],
        Some "be brief").
Proof.
  refine (plain_messages_translate (provider_yielding [] None)
            [system_message "be brief"; user_message "hi"; user_message ""]
            _).
  repeat constructor; try (by eexists); try (intros _; by eexists).
Defined.

(** ** The Bedrock gateway *)

Lemma prefix_cons (a b : Ascii.ascii) (p s : string) :
  String.prefix (String a p) (String b s)
  = if Ascii.ascii_dec a b then String.prefix p s else false.
Proof. reflexivity. Qed.

(** The [elif] chain reaches its AI21 case for every model identifier
    that starts with ["ai21"]: no earlier prefix matches it. *)
Lemma ai21_family (model : string) :
  startswith "ai21" model = true → family_of model = Some AI21.
Proof.
  unfold family_of, startswith. intros Hai21. rewrite Hai21.
  destruct model as [| a1 model]; [discriminate Hai21 |].
  rewrite prefix_cons in Hai21.
  destruct (Ascii.ascii_dec _ a1) as [<- |]; [| discriminate Hai21].
  destruct model as [| a2 model]; [discriminate Hai21 |].
  rewrite prefix_cons in Hai21.
  destruct (Ascii.ascii_dec _ a2) as [<- |]; [| discriminate Hai21].
  reflexivity.
Qed.

(** X20. The AI21 family answers in one piece: the dispatch makes the one
    [invoke_model] call, reads [completions[0].data.text] of the parsed
    body and sends it as a single [more_body=True] chunk, with no closing
    send after it. *)
Theorem ai21_answer_is_one_open_chunk (up : upstream) (syn : synapse)
    (w : world) (request body answer : string) (parsed completions c data
    : json) :
  provider syn = "Bedrock" →
  startswith "ai21" (model syn) = true →
  generate_request up syn = ok request →
  bedrock_invoke_model up (BedrockInvokeModel (model syn) request) = ok body →
  json_loads up body = ok parsed →
  json_item parsed "completions" = ok completions →
  json_first completions = ok c →
  json_item c "data" = ok data →
  json_item data "text" = ok (JStr answer) →
  sink (_prompt up syn w)
  = sink w ++ [{| body := answer; more_body := true |}]
  ∧ calls (_prompt up syn w)
    = calls w ++ [BedrockInvokeModel (model syn) request].
Proof.
  intros Hprovider Hai21 Hrequest Hbody Hparsed Hcompletions Hfirst Hdata
    Htext.
  pose proof (ai21_family _ Hai21) as Hfamily.
  assert (Hbranch : _prompt_body up syn = bedrock_branch up syn).
  { unfold _prompt_body. by rewrite Hprovider. }
  rewrite prompt_sink, prompt_calls, Hbranch. unfold bedrock_branch.
  erewrite mbind_ok by (unfold lift; rewrite Hrequest; reflexivity).
  rewrite Hai21.
  erewrite mbind_ok by (unfold call; rewrite Hbody; reflexivity).
  erewrite mbind_ok.
  2: { unfold lift, extract_token. rewrite Hfamily, Hparsed. simpl.
       rewrite Hcompletions. simpl. rewrite Hfirst. simpl.
       rewrite Hdata. simpl. rewrite Htext. reflexivity. }
  done.
Qed.

Lemma ai21_answer_is_one_open_chunk_witness :
  sink (_prompt (ai21_upstream "Hello") ai21_request empty_world)
  = [{| body := "Hello"; more_body := true |}]
  ∧ calls (_prompt (ai21_upstream "Hello") ai21_request empty_world)
    = [BedrockInvokeModel "ai21.j2-mid-v1" "{...}"].
Proof.
  exact (ai21_answer_is_one_open_chunk (ai21_upstream "Hello") ai21_request
           empty_world "{...}" "body" "Hello" (ai21_response "Hello")
           (JList [JDict [("data", JDict [("text", JStr "Hello")])]])
           (JDict [("data", JDict [("text", JStr "Hello")])])
           (JDict [("text", JStr "Hello")])
           eq_refl eq_refl eq_refl eq_refl eq_refl eq_refl eq_refl eq_refl
           eq_refl).
Defined.

(** ** The chat branches, chunk by chunk *)

Lemma chat_step_forwards (chunk : chat_chunk) (w : world) :
  has_choice chunk →
  buffered_step chat_token join [] chunk w
  = (ok [],
     {| sink := sink w ++ [{| body := delta_content chunk; more_body := true |}];
        log := log w ++ [LogInfo ("Streamed tokens: " +:+ delta_content chunk)];
        calls := calls w |}).
Proof. by destruct chunk as [| content others]. Qed.

Lemma chat_for_each_forwards (chunks : list chat_chunk) :
  Forall has_choice chunks →
  ∀ w, for_each (buffered_step chat_token join) chunks [] w
       = (ok [],
          {| sink := sink w ++ streamed (delta_content <$> chunks);
             log := log w ++ streamed_log (delta_content <$> chunks);
             calls := calls w |}).
Proof.
  induction 1 as [| chunk chunks Hchunk _ IH]; intros w.
  - simpl. unfold mret. rewrite !app_nil_r. by destruct w.
  - simpl for_each. erewrite mbind_ok by by apply chat_step_forwards.
    rewrite IH. csimpl. by rewrite <- !(assoc_L (++)).
Qed.

Lemma chat_loop_forwards (s : stream chat_chunk) (w : world) :
  Forall has_choice (items s) →
  buffered_loop chat_token join s w
  = (match failure s with None => ok [] | Some e => throw e end,
     {| sink := sink w ++ streamed (delta_content <$> items s);
        log := log w ++ streamed_log (delta_content <$> items s);
        calls := calls w |}).
Proof.
  intros Hchunks. unfold buffered_loop, for_stream.
  erewrite mbind_ok by by apply chat_for_each_forwards.
  by destruct (failure s).
Qed.

(** X13. On a stream whose every chunk has a choice, the OpenAI and Groq
    branches forward every chunk as a send of its own, in the order of
    the stream: the body is the delta content of the
    chunk's first choice, and the empty string when that content is
    [None] or empty, so empty sends are made.  The other choices are not
    read.  When the stream ends by an exception the sends made before it
    stay, and neither way is a closing send made. *)
Theorem chat_branches_forward_every_chunk (up : upstream) (syn : synapse)
    (w : world) (s : stream chat_chunk) :
  (provider syn = "Groq" ∧ ∀ c, groq_client up c = ok s)
  ∨ (provider syn = "OpenAI"
     ∧ is_Some (head (messages syn) ≫= (.!! "role"))
     ∧ ∀ c, openai_client up c = ok s) →
  Forall has_choice (items s) →
  sink (_prompt up syn w)
  = sink w ++ streamed (delta_content <$> items s).
Proof.
  intros Hbranch Hchunks. rewrite prompt_sink.
  destruct Hbranch as [[Hprovider Hanswer] | (Hprovider & Hrole & Hanswer)].
  - assert (Hbody : _prompt_body up syn = groq_branch up syn).
    { unfold _prompt_body. by rewrite Hprovider. }
    rewrite Hbody. unfold groq_branch.
    erewrite mbind_ok by (unfold call; rewrite Hanswer; reflexivity).
    unfold mbind. rewrite chat_loop_forwards by done.
    by destruct (failure s).
  - assert (Hbody : _prompt_body up syn = openai_branch up syn).
    { unfold _prompt_body. by rewrite Hprovider. }
    rewrite Hbody. unfold openai_branch.
    destruct Hrole as [role Hrole].
    destruct (messages syn) as [| message rest] eqn:Hmessages;
      [discriminate Hrole |].
    simpl in Hrole.
    erewrite mbind_ok.
    2: { unfold lift, openai_messages, first_message, getitem. simpl.
         rewrite Hrole. reflexivity. }
    erewrite mbind_ok by (unfold call; rewrite Hanswer; reflexivity).
    unfold mbind. rewrite chat_loop_forwards by done.
    by destruct (failure s).
Qed.

Lemma chat_branches_forward_every_chunk_witness :
  sink (_prompt chat_upstream (user_request "OpenAI") empty_world)
  = streamed ["a"; ""; ""; "b"].
Proof.
  exact (chat_branches_forward_every_chunk chat_upstream
           (user_request "OpenAI") empty_world chat_stream
           (or_intror (conj eq_refl (conj (mk_is_Some _ _ eq_refl)
                                        (λ _, eq_refl))))
           ltac:(repeat constructor; discriminate)).
Defined.

End ProtocolFacts.


(** * More properties of the embedding batcher *)

Module EmbeddingHandlerFacts.
Import Embedding EmbeddingHandler EmbeddingFacts.

(** ** Which texts are dropped *)

Lemma lstrip_empty (s : string) : lstrip s = "" ↔ all_space s = true.
Proof.
  induction s as [| a rest IH]; simpl; [done |].
  destruct (isspace a); simpl; [done |]. split; discriminate.
Qed.

Lemma lstrip_head (s : string) (a : Ascii.ascii) (rest : string) :
  lstrip s = String a rest → isspace a = false.
Proof.
  induction s as [| b s IH]; simpl; [done |].
  destruct (isspace b) eqn:Hb; [done |]. by intros [= <- _].
Qed.

Lemma all_space_rev_app (s1 s2 : string) :
  all_space (String.rev_app s1 s2) = all_space s1 && all_space s2.
Proof.
  revert s2. induction s1 as [| a s1 IH]; intros s2; simpl; [done |].
  rewrite IH. simpl. by destruct (isspace a), (all_space s1).
Qed.

Lemma rev_app_empty (s1 s2 : string) :
  String.rev_app s1 s2 = "" → s1 = "" ∧ s2 = "".
Proof.
  revert s2. induction s1 as [| a s1 IH]; intros s2; simpl; [done |].
  by intros [_ [=]]%IH.
Qed.

(** X22. The filter of the batcher drops a text exactly when it holds
    whitespace only: [text.strip()] is empty if and only if every
    character of [text] is a whitespace character. *)
Theorem strip_is_empty_iff_all_space (text : string) :
  str_truthy (strip text) = negb (all_space text).
Proof.
  unfold strip. destruct (all_space text) eqn:Hspace; simpl.
  - apply lstrip_empty in Hspace. by rewrite Hspace.
  - destruct (lstrip text) as [| a rest] eqn:Hleft.
    { apply lstrip_empty in Hleft. congruence. }
    pose proof (lstrip_head _ _ _ Hleft) as Ha.
    unfold rstrip, String.rev.
    destruct (lstrip (String.rev_app (String a rest) "")) as [| b s] eqn:Hright.
    + apply lstrip_empty in Hright. rewrite all_space_rev_app in Hright.
      simpl in Hright. by rewrite Ha in Hright.
    + destruct (String.rev_app (String b s) "") eqn:Hrev; [| done].
      by apply rev_app_empty in Hrev as [[=] _].
Qed.

(** ** Runs with a positive batch size *)

Lemma run_positive (client : embeddings_client) (texts : list string)
    (model : string) (batch_size : Z) :
  0 < batch_size →
  ∃ r, get_embeddings_in_batch client texts model batch_size = ok r
       ∧ concat (issued r) = filtered_batch texts
       ∧ Forall (λ batch, batch ≠ []) (issued r)
       ∧ returned r = concat (successes client model (issued r)).
Proof.
  intros Hpos.
  destruct (batches_of_spec texts batch_size Hpos)
    as (batches & Hbatches & Hconcat & _).
  destruct (make_tasks_spec batches) as [Htasks _].
  unfold get_embeddings_in_batch. rewrite Hbatches. simpl.
  destruct (make_tasks batches) as [tasks skipped]. simpl in Htasks.
  rewrite collect_spec. eexists. split; [reflexivity |]. simpl.
  split_and!; [| | done].
  - by rewrite Htasks, concat_filter_is_cons, concat_filtered, Hconcat.
  - rewrite Htasks. apply Forall_forall.
    intros task [_ Hcons]%list_elem_of_In%List.filter_In. by destruct task.
Qed.

Lemma concat_nil_of_cons {A} (ls : list (list A)) :
  Forall (λ l, l ≠ []) ls → concat ls = [] → ls = [].
Proof.
  destruct 1 as [| l ls Hl _]; [done |]. simpl.
  intros [Hnil _]%app_eq_nil. done.
Qed.

Lemma filtered_batch_blank (texts : list string) :
  Forall blank texts → filtered_batch texts = [].
Proof.
  induction 1 as [| text rest Hblank _ IH]; [done |].
  unfold filtered_batch in *. simpl. by rewrite Hblank.
Qed.

(** X23. For blank input no upstream call is made: when every text is empty
    or whitespace-only, no batch is issued and the result is empty,
    whatever the client would answer. *)
Theorem blank_texts_issue_no_call (client : embeddings_client)
    (texts : list string) (model : string) (batch_size : Z) :
  0 < batch_size →
  Forall blank texts →
  ∃ r, get_embeddings_in_batch client texts model batch_size = ok r
       ∧ issued r = [] ∧ returned r = [].
Proof.
  intros Hpos Hblank.
  destruct (run_positive client texts model batch_size Hpos)
    as (r & Hrun & Hconcat & Hcons & Hreturned).
  exists r. split; [done |].
  rewrite filtered_batch_blank in Hconcat by done.
  assert (Hissued : issued r = []) by by apply concat_nil_of_cons.
  split; [done |]. by rewrite Hreturned, Hissued.
Qed.

Lemma blank_texts_issue_no_call_witness :
  ∃ r, get_embeddings_in_batch example_client [""; "  "; ""] "m" 2 = ok r
       ∧ issued r = [] ∧ returned r = [].
Proof.
  refine (blank_texts_issue_no_call example_client [""; "  "; ""] "m" 2
            ltac:(lia) _).
  repeat constructor.
Defined.

(** X24. The batch size at its edges: a size of zero raises [ValueError]
    whatever the texts, the empty list included; a negative size raises
    nothing, issues nothing and returns the empty list, the texts being
    ignored. *)
Theorem batch_size_edges (client : embeddings_client) (texts : list string)
    (model : string) :
  get_embeddings_in_batch client texts model 0 = throw ValueError
  ∧ ∀ size : positive,
      get_embeddings_in_batch client texts model (Z.neg size)
      = ok {| issued := []; returned := []; log := [] |}.
Proof. split; [done |]. by intros size. Qed.

(** ** A client that answers every batch *)

Lemma successes_pointwise (client : embeddings_client) (model : string)
    (embed : string → vector) (tasks : list (list string)) :
  pointwise client model embed →
  concat (successes client model tasks) = embed <$> concat tasks.
Proof.
  intros Hclient. unfold successes.
  induction tasks as [| input rest IH]; [done |]. csimpl.
  destruct (Hclient input) as (data & -> & Hdata). csimpl.
  by rewrite fmap_app, IH, Hdata.
Qed.

(** X25. When no call fails and the client embeds text by text, the result
    holds the embeddings of the surviving texts in their original order,
    whatever the batch size; it has one vector per input text, position
    by position, only when no text was dropped. *)
Theorem result_follows_surviving_texts (client : embeddings_client)
    (texts : list string) (model : string) (batch_size : Z)
    (embed : string → vector) :
  0 < batch_size →
  pointwise client model embed →
  ∃ r, get_embeddings_in_batch client texts model batch_size = ok r
       ∧ returned r = embed <$> filtered_batch texts.
Proof.
  intros Hpos Hclient.
  destruct (run_positive client texts model batch_size Hpos)
    as (r & Hrun & Hconcat & _ & Hreturned).
  exists r. split; [done |].
  by rewrite Hreturned, (successes_pointwise _ _ embed), Hconcat.
Qed.

Lemma code_client_pointwise (model : string) :
  pointwise code_client model code_vector.
Proof.
  intros input. eexists. split; [reflexivity |].
  rewrite <- list_fmap_compose. by apply list_fmap_ext.
Defined.

Lemma result_follows_surviving_texts_witness :
  ∃ r, get_embeddings_in_batch code_client example_texts "m" 2 = ok r
       ∧ returned r = [[inject_Z 120]; [inject_Z 121]; [inject_Z 122]].
Proof.
  exact (result_follows_surviving_texts code_client example_texts "m" 2
           code_vector ltac:(lia) (code_client_pointwise "m")).
Defined.

(** ** The handler *)

(** X26. The handler answers nothing when no vector came back: if every text
    is blank, or every issued batch fails, [embeddings] returns [None]
    instead of a synapse with an empty list, and the last log line is the
    [IndexError] raised by the log statement that reads
    [synapse.embeddings[0]]. *)
Theorem handler_returns_none_without_vectors (client : embeddings_client)
    (texts : list string) (model : string) :
  Forall blank texts ∨ (∀ input, fails client model input) →
  fst (embeddings client texts model) = None
  ∧ last (snd (embeddings client texts model))
    = Some (LogException "Exception in embeddings function: " IndexError).
Proof.
  intros Hempty.
  destruct (run_positive client texts model 10 ltac:(lia))
    as (r & Hrun & Hconcat & Hcons & Hreturned).
  assert (Hnone : returned r = []).
  { rewrite Hreturned. destruct Hempty as [Hblank | Hfails].
    - rewrite filtered_batch_blank in Hconcat by done.
      by rewrite (concat_nil_of_cons _ Hcons Hconcat).
    - unfold successes. clear -Hfails.
      induction (issued r) as [| input rest IH]; [done |]. csimpl.
      destruct (Hfails input) as [e ->]. by csimpl. }
  unfold embeddings. rewrite Hrun, Hnone. simpl.
  split; [done |]. by rewrite last_cons, last_snoc.
Qed.

Lemma handler_returns_none_without_vectors_witness :
  fst (embeddings failing_client example_texts "m") = None
  ∧ last (snd (embeddings failing_client example_texts "m"))
    = Some (LogException "Exception in embeddings function: " IndexError).
Proof.
  refine (handler_returns_none_without_vectors failing_client example_texts
            "m" (or_intror _)).
  intros input. by eexists.
Defined.

(** Otherwise the handler returns what the batcher returned: when the
    handler answers, its embeddings are a non-empty list, the result of
    [get_embeddings_in_batch] with batches of ten. *)
Theorem handler_answer_is_batch_result (client : embeddings_client)
    (texts : list string) (model : string) (vectors : list vector) :
  fst (embeddings client texts model) = Some vectors →
  vectors ≠ []
  ∧ ∃ r, get_embeddings_in_batch client texts model 10 = ok r
         ∧ returned r = vectors
         ∧ concat (issued r) = filtered_batch texts.
Proof.
  destruct (run_positive client texts model 10 ltac:(lia))
    as (r & Hrun & Hconcat & _ & _).
  unfold embeddings. rewrite Hrun.
  destruct (returned r) as [| first others] eqn:Hreturned; simpl; [done |].
  intros [= <-]. split; [done |]. by exists r.
Qed.

Lemma handler_answer_is_batch_result_witness :
  fst (embeddings code_client example_texts "m")
  = Some [[inject_Z 120]; [inject_Z 121]; [inject_Z 122]]
  ∧ [[inject_Z 120]; [inject_Z 121]; [inject_Z 122]] ≠ ([] : list vector).
Proof.
  split; [reflexivity |].
  exact (proj1 (handler_answer_is_batch_result code_client example_texts "m"
                  [[inject_Z 120]; [inject_Z 121]; [inject_Z 122]] eq_refl)).
Defined.

End EmbeddingHandlerFacts.


(** * Properties of the image handler and of the hotkey scan *)

Module ImagesFacts.
Import Images.

(** X27. The image handler answers with a synapse unless the OpenAI call
    fails or returns no image: an unknown provider is answered with an
    empty completion (and logged), not refused, and no upstream call is
    made for it; for "OpenAI" one call is made, and the completion holds
    the url and the revised prompt of the first image only. *)
Theorem images_outcomes (client : images_client) (syn : synapse) :
  let c := {| call_model := model syn; call_prompt := messages syn;
              call_size := size syn; call_quality := quality syn;
              call_style := style syn |} in
  let out := images client syn in
  (provider syn ≠ "OpenAI" → completion out = Some ∅ ∧ calls out = [])
  ∧ (provider syn = "OpenAI" →
     calls out = [c]
     ∧ (completion out = None
        ↔ (∃ e, client c = throw e) ∨ client c = ok [])
     ∧ ∀ first others, client c = ok (first :: others) →
         completion out
         = Some {[ "url" := url first;
                   "image_revised_prompt" := revised_prompt first ]}).
Proof.
  cbv zeta. unfold images. split.
  - intros Hunknown%String.eqb_neq. by rewrite Hunknown.
  - intros ->. simpl.
    destruct (client _) as [e | [| first others]] eqn:Hanswer; simpl.
    + split_and!; [done | | done]. split; [eauto | done].
    + split_and!; [done | | done]. split; [eauto | done].
    + split_and!; [done | |].
      * split; intros H; [discriminate H |].
        destruct H as [[e He] | He]; discriminate.
      * by intros first' others' [= <- <-].
Qed.

End ImagesFacts.

Module ValidHotkeysFacts.
Import ValidHotkeys.

Section Scan.
Context (verify : string → string → string → result bool)
        (hotkeys : list string) (latest_version : option string).

(** What the loop body does to the list: nothing, or it appends the
    hotkey of an accepted run that the list does not hold yet. *)
Lemma consider_cases (valid : list string) (run : wandb_run) :
  let valid' := fst (consider verify hotkeys latest_version valid run) in
  (valid' = valid
   ∧ ∀ hotkey, accepted verify hotkeys latest_version run hotkey →
               hotkey ∈ valid)
  ∨ ∃ hotkey, valid' = valid ++ [hotkey]
              ∧ (hotkey ∉ valid)
              ∧ accepted verify hotkeys latest_version run hotkey.
Proof.
  cbv zeta. unfold consider, accepted.
  destruct (String.eqb (state run) "running") eqn:Hstate.
  2: { left. split; [done |]. apply String.eqb_neq in Hstate.
       by intros hotkey [? _]. }
  apply String.eqb_eq in Hstate. unfold getitem.
  destruct (config run !! "hotkey") as [hotkey |] eqn:Hhotkey; simpl.
  2: { left. split; [done |]. by intros h (_ & [=] & _). }
  destruct (config run !! "signature") as [signature |] eqn:Hsignature; simpl.
  2: { left. split; [done |]. by intros h (_ & _ & _ & _ & s & [=] & _). }
  destruct (config run !! "version") as [version |] eqn:Hversion; simpl.
  2: { left. split; [done |]. by intros h (_ & _ & (v & [=] & _) & _). }
  unfold check_run.
  destruct latest_version as [latest |] eqn:Hlatest.
  2: { left. split; [done |]. by intros h (_ & _ & (v & _ & [=]) & _). }
  destruct (String.eqb latest version) eqn:Hsame; simpl.
  2: { left. split; [done |]. apply String.eqb_neq in Hsame.
       intros h (_ & _ & (v & [= <-] & [= ->]) & _). done. }
  apply String.eqb_eq in Hsame as ->.
  case_bool_decide as Hregistered; simpl.
  { left. split; [done |]. by intros h (_ & [= <-] & _ & Hin & _). }
  destruct (verify hotkey (id run) signature) as [e | [|]] eqn:Hverify;
    simpl.
  - left. split; [done |].
    intros h (_ & [= <-] & _ & _ & s & [= <-] & Hv). congruence.
  - case_bool_decide as Hnew; simpl.
    + right. exists hotkey. split_and!; eauto 10.
    + left. split; [done |]. intros h (_ & [= <-] & _). done.
  - left. split; [done |].
    intros h (_ & [= <-] & _ & _ & s & [= <-] & Hv). congruence.
Qed.

(** X28. A pass over the runs only appends to the list of valid hotkeys: the
    hotkeys it held stay, in their order, and no hotkey is entered twice. *)
Theorem scan_only_appends (valid : list string) (runs : list wandb_run) :
  NoDup valid →
  valid `prefix_of` fst (scan verify hotkeys latest_version valid runs)
  ∧ NoDup (fst (scan verify hotkeys latest_version valid runs)).
Proof.
  revert valid. induction runs as [| run rest IH]; intros valid Hnodup;
    simpl; [done |].
  pose proof (consider_cases valid run) as Hcases. cbv zeta in Hcases.
  destruct (consider verify hotkeys latest_version valid run)
    as [valid1 lg1]. simpl in Hcases.
  assert (Hstep : valid `prefix_of` valid1 ∧ NoDup valid1).
  { destruct Hcases as [[-> _] | (hotkey & -> & Hnew & _)]; [done |].
    split; [by apply prefix_app_r |].
    apply NoDup_app. split_and!; [done | | apply NoDup_singleton].
    intros x Hx ->%list_elem_of_singleton. done. }
  destruct Hstep as [Hprefix Hnodup1].
  destruct (IH valid1 Hnodup1) as [IHprefix IHnodup].
  destruct (scan verify hotkeys latest_version valid1 rest) as [valid2 lg2].
  simpl in *. split; [by etrans |]. done.
Qed.

(** X29. After a pass the list holds the hotkeys it held before and the
    hotkeys of the accepted runs, and no other: a hotkey is entered
    exactly when a run in state "running" names it, carries the latest
    version and a signature that verifies, and the hotkey is in the
    metagraph.  When the latest version is unknown no run is accepted. *)
Theorem scan_adds_accepted_hotkeys (valid : list string)
    (runs : list wandb_run) (hotkey : string) :
  hotkey ∈ fst (scan verify hotkeys latest_version valid runs)
  ↔ hotkey ∈ valid
    ∨ ∃ run, run ∈ runs ∧ accepted verify hotkeys latest_version run hotkey.
Proof.
  revert valid. induction runs as [| run rest IH]; intros valid; simpl.
  - split; [by left |]. intros [H | (run & Hrun & _)]; [done |].
    by apply elem_of_nil in Hrun.
  - pose proof (consider_cases valid run) as Hcases. cbv zeta in Hcases.
    destruct (consider verify hotkeys latest_version valid run)
      as [valid1 lg1]. simpl in Hcases.
    specialize (IH valid1).
    destruct (scan verify hotkeys latest_version valid1 rest)
      as [valid2 lg2]. simpl in *. rewrite IH. clear IH.
    destruct Hcases as [[-> Hold] | (h & -> & Hnew & Haccepted)].
    + split.
      * intros [H | (r & Hr & Ha)]; [by left |].
        right. exists r. split; [by apply elem_of_cons; right | done].
      * intros [H | (r & [-> | Hr]%elem_of_cons & Ha)]; [by left | |].
        -- left. by apply Hold.
        -- right. by exists r.
    + rewrite elem_of_app, list_elem_of_singleton. split.
      * intros [[H | ->] | (r & Hr & Ha)]; [by left | |].
        -- right. exists run. split; [by apply elem_of_cons; left | done].
        -- right. exists r. split; [by apply elem_of_cons; right | done].
      * intros [H | (r & [-> | Hr]%elem_of_cons & Ha)].
        -- by left; left.
        -- left. right.
           destruct Ha as (_ & Hh1 & _), Haccepted as (_ & Hh2 & _).
           congruence.
        -- right. by exists r.
Qed.
End Scan.

Lemma scan_only_appends_witness :
  fst (scan example_verify ["hk1"; "hk2"] (Some "4.0.0") ["hk1"]
         [example_run "hk2" "aa"; example_run "hk1" "aa";
          example_run "hk3" "aa"; example_run "hk2" "bb"])
  = ["hk1"; "hk2"]
  ∧ ["hk1"] `prefix_of` ["hk1"; "hk2"].
Proof.
  split; [reflexivity |].
  exact (proj1 (scan_only_appends example_verify ["hk1"; "hk2"]
                  (Some "4.0.0") ["hk1"]
                  [example_run "hk2" "aa"; example_run "hk1" "aa";
                   example_run "hk3" "aa"; example_run "hk2" "bb"]
                  ltac:(apply NoDup_singleton))).
Defined.

End ValidHotkeysFacts.
